(** * Gmail MCP server: message composition, decomposition and draft merge

    A shallow embedding of the parts of [gmail_server.py] that transform
    data: the MIME messages built by [send_email],
    [send_email_with_multiple_attachments] and [update_email_draft], the
    recursive extractor and the body resolution of [read_email], and the
    label check of [mark_as_read]; then [mark_as_unread],
    [send_email_with_attachment], [batch_delete_emails], [format_size]
    of [get_email_profile] and [get_message_subject] of
    [utils/gmail_api.py].

    Python values are modelled as follows.
    - [str] is a list of Unicode code points ([pystr], a [list Z]);
    - [bytes] is a list of integers in [0, 256);
    - [Optional[str]] is [option pystr]; a dict with optional keys is a
      record of options, a dict used as a map is a [gmap];
    - an exception is a value of [exn]; code that may raise returns a
      [result]. *)

From Stdlib Require Import ZArith Lia String Ascii DecimalString.
From stdpp Require Import gmap list.

Local Open Scope Z_scope.

(** ** Python strings *)

Abbreviation pystr := (list Z).
Abbreviation pybytes := (list Z).

(** A literal of the source, written as a Rocq string (ASCII only). *)
Definition py (s : string) : pystr :=
  map (fun a => Z.of_N (N_of_ascii a)) (list_ascii_of_string s).
Arguments py s : simpl never.

(** [bool(s)] for a string: the empty string is false. *)
Definition truthy (s : pystr) : bool :=
  match s with [] => false | _ :: _ => true end.

(** [bool(o)] for an [Optional[str]]: [None] and the empty string are
    false. *)
Definition truthy_opt (o : option pystr) : bool :=
  match o with None => false | Some s => truthy s end.

(** [str(n)] for an [int]. *)
Definition str_int (n : Z) : pystr := py (NilZero.string_of_int (Z.to_int n)).

(** [sep.join(l)]. *)
Fixpoint join (sep : pystr) (l : list pystr) : pystr :=
  match l with
  | [] => []
  | [x] => x
  | x :: rest => x ++ sep ++ join sep rest
  end.

(** [s.lower()], exact on the code points whose lower case contains an
    ASCII character: [A]-[Z], U+0130 (which lowers to [i] followed by
    U+0307) and U+212A (the Kelvin sign, which lowers to [k]).  Every
    other code point lowers to non-ASCII code points only; the model
    leaves them as they are, which does not change the outcome of a
    comparison with an ASCII literal nor a dictionary lookup at an ASCII
    key, the only uses the source makes of [lower]. *)
Definition lower_cp (c : Z) : pystr :=
  if (65 <=? c) && (c <=? 90) then [c + 32]
  else if c =? 304 then [105; 775]
  else if c =? 8490 then [107]
  else [c].

Definition lower (s : pystr) : pystr := List.concat (map lower_cp s).

(** ** Exceptions *)

Inductive exn_kind :=
| BinasciiError | ValueError | UnicodeDecodeError | KeyError
| HttpError | OtherError.

Record exn := Exn { exn_kind_of : exn_kind; exn_str : pystr }.

Inductive result (A : Type) :=
| Ok (a : A)
| Raise (e : exn).
Arguments Ok {A} a.
Arguments Raise {A} e.

Definition rbind {A B} (r : result A) (f : A -> result B) : result B :=
  match r with
  | Ok a => f a
  | Raise e => Raise e
  end.

(** ** base64 ([base64.urlsafe_b64encode], [base64.urlsafe_b64decode])

    The library code behind the two calls, as CPython 3.11 has it:
    [binascii.b2a_base64] and the non-strict [binascii.a2b_base64], with
    the URL-safe translation of [+] and [/] to [-] and [_].  Sextets are
    written with division and remainder where the C code shifts and
    masks. *)
Module Base64.

Definition table_b2a (v : Z) : Z :=
  if v <? 26 then 65 + v
  else if v <? 52 then 97 + (v - 26)
  else if v <? 62 then 48 + (v - 52)
  else if v =? 62 then 43
  else 47.

Definition table_a2b (c : Z) : option Z :=
  if (65 <=? c) && (c <=? 90) then Some (c - 65)
  else if (97 <=? c) && (c <=? 122) then Some (c - 97 + 26)
  else if (48 <=? c) && (c <=? 57) then Some (c - 48 + 52)
  else if c =? 43 then Some 62
  else if c =? 47 then Some 63
  else None.

Definition pad : Z := 61.

Fixpoint b2a_base64 (bs : pybytes) : pystr :=
  match bs with
  | [] => []
  | [a] => [table_b2a (a / 4); table_b2a ((a mod 4) * 16); pad; pad]
  | [a; b] =>
      [table_b2a (a / 4); table_b2a ((a mod 4) * 16 + b / 16);
       table_b2a ((b mod 16) * 4); pad]
  | a :: b :: c :: rest =>
      table_b2a (a / 4) :: table_b2a ((a mod 4) * 16 + b / 16)
      :: table_b2a ((b mod 16) * 4 + c / 64) :: table_b2a (c mod 64)
      :: b2a_base64 rest
  end.

(** [s.translate(_urlsafe_encode_translation)] *)
Definition urlsafe_encode_translation (c : Z) : Z :=
  if c =? 43 then 45 else if c =? 47 then 95 else c.

Definition urlsafe_decode_translation (c : Z) : Z :=
  if c =? 45 then 43 else if c =? 95 then 47 else c.

Definition urlsafe_b64encode (bs : pybytes) : pystr :=
  map urlsafe_encode_translation (b2a_base64 bs).

Definition invalid_length (out : pybytes) : exn :=
  Exn BinasciiError
    (py "Invalid base64-encoded string: number of data characters ("
     ++ str_int (Z.of_nat (length out) / 3 * 4 + 1)
     ++ py ") cannot be 1 more than a multiple of 4").

Definition incorrect_padding : exn := Exn BinasciiError (py "Incorrect padding").

(** The loop of [a2b_base64] with [strict_mode] off.  [quad_pos] is the
    position in the current group of four, [leftchar] the bits left over
    from the previous character, [pads] the number of [=] seen since the
    last data character, [out] the bytes written so far.  Characters
    outside the alphabet are skipped; a pad sequence that completes a
    group ends the decoding and ignores what follows. *)
Fixpoint a2b_loop (s : pystr) (quad_pos leftchar pads : Z) (out : pybytes)
  : result pybytes :=
  match s with
  | [] =>
      if quad_pos =? 0 then Ok out
      else if quad_pos =? 1 then Raise (invalid_length out)
      else Raise incorrect_padding
  | ch :: s' =>
      if ch =? pad then
        if 2 <=? quad_pos then
          if 4 <=? quad_pos + (pads + 1) then Ok out
          else a2b_loop s' quad_pos leftchar (pads + 1) out
        else a2b_loop s' quad_pos leftchar pads out
      else
        match table_a2b ch with
        | None => a2b_loop s' quad_pos leftchar pads out
        | Some v =>
            if quad_pos =? 0 then a2b_loop s' 1 v 0 out
            else if quad_pos =? 1 then
              a2b_loop s' 2 (v mod 16) 0 (out ++ [leftchar * 4 + v / 16])
            else if quad_pos =? 2 then
              a2b_loop s' 3 (v mod 4) 0 (out ++ [leftchar * 16 + v / 4])
            else a2b_loop s' 0 0 0 (out ++ [leftchar * 64 + v])
        end
  end.

Definition a2b_base64 (s : pystr) : result pybytes := a2b_loop s 0 0 0 [].

(** [urlsafe_b64decode] of a [str]: the string is first encoded as ASCII
    (a [ValueError] otherwise), then translated and decoded. *)
Definition urlsafe_b64decode (s : pystr) : result pybytes :=
  if forallb (fun c => (0 <=? c) && (c <? 128)) s
  then a2b_base64 (map urlsafe_decode_translation s)
  else Raise (Exn ValueError
                (py "string argument should contain only ASCII characters")).

End Base64.

(** ** UTF-8 ([str.encode], [bytes.decode])

    [decode] follows CPython's decoder: an ill-formed sequence is an
    error that covers its longest well-formed prefix (at least one
    byte); with [errors='replace'] the error becomes U+FFFD and decoding
    goes on after it, with the default [errors='strict'] it is raised. *)
Module Utf8.

Inductive errors := strict | replace.

Definition encode_cp (c : Z) : pybytes :=
  if c <? 128 then [c]
  else if c <? 2048 then [192 + c / 64; 128 + c mod 64]
  else if c <? 65536 then
    [224 + c / 4096; 128 + (c / 64) mod 64; 128 + c mod 64]
  else
    [240 + c / 262144; 128 + (c / 4096) mod 64;
     128 + (c / 64) mod 64; 128 + c mod 64].

(** [s.encode('utf-8')] for a string of Unicode scalar values. *)
Definition encode (s : pystr) : pybytes := List.concat (map encode_cp s).

Definition is_cont (b : Z) : bool := (128 <=? b) && (b <? 192).

(** The second byte of a three-byte sequence: [E0] excludes overlong
    forms, [ED] excludes the surrogates. *)
Definition second_of_3 (b0 b1 : Z) : bool :=
  is_cont b1
  && negb ((b0 =? 224) && (b1 <? 160))
  && negb ((b0 =? 237) && (160 <=? b1)).

(** The second byte of a four-byte sequence: [F0] excludes overlong
    forms, [F4] excludes code points above U+10FFFF. *)
Definition second_of_4 (b0 b1 : Z) : bool :=
  is_cont b1
  && negb ((b0 =? 240) && (b1 <? 144))
  && negb ((b0 =? 244) && (144 <=? b1)).

Definition emit (c : Z) (k : result pystr) : result pystr :=
  rbind k (fun s => Ok (c :: s)).

Definition decode_error : exn :=
  Exn UnicodeDecodeError (py "'utf-8' codec can't decode bytes").

Definition on_error (e : errors) (k : result pystr) : result pystr :=
  match e with
  | strict => Raise decode_error
  | replace => emit 65533 k
  end.

Fixpoint decode (e : errors) (bs : pybytes) : result pystr :=
  match bs with
  | [] => Ok []
  | b0 :: r0 =>
      if (0 <=? b0) && (b0 <? 128) then emit b0 (decode e r0)
      else if (194 <=? b0) && (b0 <? 224) then
        match r0 with
        | [] => on_error e (Ok [])
        | b1 :: r1 =>
            if is_cont b1
            then emit ((b0 - 192) * 64 + (b1 - 128)) (decode e r1)
            else on_error e (decode e r0)
        end
      else if (224 <=? b0) && (b0 <? 240) then
        match r0 with
        | [] => on_error e (Ok [])
        | b1 :: r1 =>
            if second_of_3 b0 b1 then
              match r1 with
              | [] => on_error e (Ok [])
              | b2 :: r2 =>
                  if is_cont b2
                  then emit ((b0 - 224) * 4096 + (b1 - 128) * 64 + (b2 - 128))
                            (decode e r2)
                  else on_error e (decode e r1)
              end
            else on_error e (decode e r0)
        end
      else if (240 <=? b0) && (b0 <? 245) then
        match r0 with
        | [] => on_error e (Ok [])
        | b1 :: r1 =>
            if second_of_4 b0 b1 then
              match r1 with
              | [] => on_error e (Ok [])
              | b2 :: r2 =>
                  if is_cont b2 then
                    match r2 with
                    | [] => on_error e (Ok [])
                    | b3 :: r3 =>
                        if is_cont b3
                        then emit ((b0 - 240) * 262144 + (b1 - 128) * 4096
                                   + (b2 - 128) * 64 + (b3 - 128))
                                  (decode e r3)
                        else on_error e (decode e r2)
                    end
                  else on_error e (decode e r1)
              end
            else on_error e (decode e r0)
        end
      else on_error e (decode e r0)
  end.

End Utf8.

(** ** Regular expressions ([re.sub])

    A backtracking matcher for the fragment of Python's [re] syntax the
    source uses: literals, character classes, [c*] and [c*?] over a
    character class, [r?], sequence and alternation.  [exec r k s] tries
    the ways [r] can match a prefix of [s] in the order of preference of
    [re] (the left alternative first, the longest repetition first for
    [*], the shortest first for [*?]) and returns the first for which the
    continuation [k] succeeds on the rest of the string. *)
Module Re.

Inductive regex :=
| Lit (l : pystr)
| Cls (p : Z -> bool)
| Star (p : Z -> bool)
| StarLazy (p : Z -> bool)
| Opt (r : regex)
| Seq (r1 r2 : regex)
| Alt (r1 r2 : regex).

Fixpoint strip_prefix (l s : pystr) : option pystr :=
  match l, s with
  | [], _ => Some s
  | a :: l', b :: s' => if a =? b then strip_prefix l' s' else None
  | _ :: _, [] => None
  end.

Definition or_else {A} (o : option A) (alt : option A) : option A :=
  match o with Some x => Some x | None => alt end.

Fixpoint star_greedy (p : Z -> bool) (k : pystr -> option pystr) (s : pystr)
  : option pystr :=
  match s with
  | [] => k []
  | c :: s' => if p c then or_else (star_greedy p k s') (k s) else k s
  end.

Fixpoint star_lazy (p : Z -> bool) (k : pystr -> option pystr) (s : pystr)
  : option pystr :=
  or_else (k s)
    match s with
    | [] => None
    | c :: s' => if p c then star_lazy p k s' else None
    end.

Fixpoint exec (r : regex) (k : pystr -> option pystr) (s : pystr)
  : option pystr :=
  match r with
  | Lit l => match strip_prefix l s with Some s' => k s' | None => None end
  | Cls p => match s with c :: s' => if p c then k s' else None | [] => None end
  | Star p => star_greedy p k s
  | StarLazy p => star_lazy p k s
  | Opt r1 => or_else (exec r1 k s) (k s)
  | Seq r1 r2 => exec r1 (exec r2 k) s
  | Alt r1 r2 => or_else (exec r1 k s) (exec r2 k s)
  end.

(** [pattern.match(s)] at the start of [s]: what is left of [s] after the
    match. *)
Definition match_at (r : regex) (s : pystr) : option pystr := exec r Some s.

(** [re.sub(r, repl, s)]: scan [s] from the left; where [r] matches,
    write [repl] and go on after the match (after one more character if
    the match is empty).  [skip] counts the characters of the current
    match still to be dropped. *)
Fixpoint sub_loop (r : regex) (repl s : pystr) (skip : nat) {struct s} : pystr :=
  match skip with
  | S n => match s with [] => [] | _ :: s' => sub_loop r repl s' n end
  | O =>
      match match_at r s with
      | None => match s with [] => [] | c :: s' => c :: sub_loop r repl s' O end
      | Some rest =>
          match (length s - length rest)%nat with
          | O => repl ++ match s with
                         | [] => []
                         | c :: s' => c :: sub_loop r repl s' O
                         end
          | S n => repl ++ match s with
                           | [] => []
                           | _ :: s' => sub_loop r repl s' n
                           end
          end
      end
  end.

Definition sub (r : regex) (repl s : pystr) : pystr := sub_loop r repl s 0.

(** [\s] on [str]: the Unicode white space characters. *)
Definition is_space (c : Z) : bool :=
  ((9 <=? c) && (c <=? 13)) || ((28 <=? c) && (c <=? 32))
  || (c =? 133) || (c =? 160) || (c =? 5760)
  || ((8192 <=? c) && (c <=? 8202)) || (c =? 8232) || (c =? 8233)
  || (c =? 8239) || (c =? 8287) || (c =? 12288).

(** The digit zero of every decimal number system of Unicode 14 (the
    version of CPython 3.11); the ten digits of a system are contiguous. *)
Definition decimal_zeros : list Z :=
  [48; 1632; 1776; 1984; 2406; 2534; 2662; 2790; 2918; 3046; 3174; 3302;
   3430; 3558; 3664; 3792; 3872; 4160; 4240; 6112; 6160; 6470; 6608; 6784;
   6800; 6992; 7088; 7232; 7248; 42528; 43216; 43264; 43472; 43504; 43600;
   44016; 65296; 66720; 68912; 69734; 69872; 69942; 70096; 70384; 70736;
   70864; 71248; 71360; 71472; 71904; 72016; 72784; 73040; 73120; 92768;
   92864; 93008; 120782; 120792; 120802; 120812; 120822; 123200; 123632;
   125264; 130032].

(** [\d] on [str]: the characters of category Nd. *)
Definition is_digit (c : Z) : bool :=
  existsb (fun z => (z <=? c) && (c <=? z + 9)) decimal_zeros.

(** [.] without [re.DOTALL]: anything but a newline. *)
Definition dot (c : Z) : bool := negb (c =? 10).

End Re.

(** ** [read_email]: the body and the attachments of a message *)

(** [<br\s*/?>|</(p|div|h\d)>] *)
Definition br_or_closing_tag : Re.regex :=
  Re.Alt
    (Re.Seq (Re.Lit (py "<br"))
       (Re.Seq (Re.Star Re.is_space)
          (Re.Seq (Re.Opt (Re.Lit (py "/"))) (Re.Lit (py ">")))))
    (Re.Seq (Re.Lit (py "</"))
       (Re.Seq
          (Re.Alt (Re.Lit (py "p"))
             (Re.Alt (Re.Lit (py "div"))
                (Re.Seq (Re.Lit (py "h")) (Re.Cls Re.is_digit))))
          (Re.Lit (py ">")))).

(** [<.*?>] *)
Definition any_tag : Re.regex :=
  Re.Seq (Re.Lit (py "<")) (Re.Seq (Re.StarLazy Re.dot) (Re.Lit (py ">"))).

Definition newline : pystr := [10].

(** The "very simple HTML to text conversion" of [read_email]. *)
Definition html_to_text (body : pystr) : pystr :=
  let body := Re.sub br_or_closing_tag newline body in
  let body := Re.sub any_tag [] body in
  let body := Re.sub (Re.Lit (py "&nbsp;")) (py " ") body in
  let body := Re.sub (Re.Lit (py "&lt;")) (py "<") body in
  let body := Re.sub (Re.Lit (py "&gt;")) (py ">") body in
  let body := Re.sub (Re.Lit (py "&amp;")) (py "&") body in
  body.

(** Exact rounding of [a / b] to the nearest integer, ties to even: what
    the [.1f] format does with the digits of a float. *)
Definition round_half_even (a b : Z) : Z :=
  let q := a / b in
  let r := a mod b in
  if 2 * r <? b then q
  else if b <? 2 * r then q + 1
  else if Z.even q then q else q + 1.

(** [f"{num/den:.1f}"] where [den] is a power of two and
    [0 <= num < 2^53]: the float division is then exact, and the format
    rounds the exact quotient to one decimal. *)
Definition format_1f (num den : Z) : pystr :=
  let tenths := round_half_even (10 * num) den in
  str_int (tenths / 10) ++ py "." ++ str_int (tenths mod 10).

(** The size string of an attachment in [get_body_and_attachments]. *)
Definition size_str (size : Z) : pystr :=
  let size_str := str_int size ++ py " bytes" in
  let size_str :=
    if 1024 <? size then format_1f size 1024 ++ py " KB" else size_str in
  let size_str :=
    if 1024 * 1024 <? size then format_1f size (1024 * 1024) ++ py " MB"
    else size_str in
  size_str.

(** The message resource of the Gmail API, as far as the source reads
    it.  Every key of a dict is optional. *)
Record Header := { name : pystr; value : pystr }.

Record Body := { data : option pystr; size : option Z }.

#[local] Unset Elimination Schemes.
Inductive Payload := MkPayload {
  mimeType : option pystr;
  filename : option pystr;
  body : option Body;
  parts : option (list Payload);
  headers : option (list Header)
}.
#[local] Set Elimination Schemes.

Record Attachment := {
  att_filename : pystr;
  att_mimeType : pystr;
  att_size : pystr
}.

(** ['body' in payload and 'data' in payload['body'] and
    payload['body']['data']]: the data of the part when the test
    succeeds. *)
Definition inline_data (payload : Payload) : option pystr :=
  match body payload with
  | Some b =>
      match data b with
      | Some d => if truthy d then Some d else None
      | None => None
      end
  | None => None
  end.

Definition key_error (k : pystr) : exn := Exn KeyError (py "'" ++ k ++ py "'").

(** The closure [get_body_and_attachments] of [read_email].  The list
    [attachments] is the one object that the recursive calls append to
    and hand back. *)
Fixpoint get_body_and_attachments (include_attachments : bool)
    (payload : Payload) (attachments : list Attachment)
  : result (list (pystr * pystr) * list Attachment) :=
  match payload with
  | MkPayload mimeType filename body parts _ =>
      match inline_data payload with
      | Some part_data =>
          let mime_type := default (py "text/plain") mimeType in
          rbind (Base64.urlsafe_b64decode part_data) (fun raw =>
          rbind (Utf8.decode Utf8.replace raw) (fun decoded_data =>
          Ok ([(mime_type, decoded_data)], attachments)))
      | None =>
          if truthy_opt filename then
            let filename := default [] filename in
            let mime_type := default (py "application/octet-stream") mimeType in
            if include_attachments then
              match body with
              | None => Raise (key_error (py "body"))
              | Some b =>
                  let size := default 0 (size b) in
                  Ok ([], attachments ++
                          [{| att_filename := filename;
                              att_mimeType := mime_type;
                              att_size := size_str size |}])
              end
            else Ok ([], attachments)
          else
            match parts with
            | Some ps =>
                (fix loop (ps : list Payload) (all_parts : list (pystr * pystr))
                     (attachments : list Attachment) :=
                   match ps with
                   | [] => Ok (all_parts, attachments)
                   | part :: ps' =>
                       match get_body_and_attachments include_attachments
                               part attachments with
                       | Ok (part_bodies, updated_attachments) =>
                           loop ps' (all_parts ++ part_bodies)
                                updated_attachments
                       | Raise e => Raise e
                       end
                   end) ps [] attachments
            | None => Ok ([], attachments)
            end
      end
  end.

Definition no_body_placeholder : pystr :=
  py "Unable to extract email body content. The email might be empty or contain only non-text attachments.".

(** The body of the message from the fragments collected by
    [get_body_and_attachments]. *)
Definition resolve_body (parts : list (pystr * pystr)) : pystr :=
  let plain_text_parts :=
    map snd (filter (fun p => fst p = py "text/plain") parts) in
  let html_parts :=
    map snd (filter (fun p => fst p = py "text/html") parts) in
  match plain_text_parts with
  | _ :: _ => join newline plain_text_parts
  | [] =>
      match html_parts with
      | h :: _ => html_to_text h
      | [] => no_body_placeholder
      end
  end.

(** The body text and the attachments that [read_email] shows for a
    payload. *)
Definition decompose (include_attachments : bool) (payload : Payload)
  : result (pystr * list Attachment) :=
  rbind (get_body_and_attachments include_attachments payload [])
    (fun '(parts, attachments) => Ok (resolve_body parts, attachments)).

(** ** The MIME messages the tools build

    A message of [email.mime] is kept as a tree: its kind, what its
    constructor was given, the parts attached to it and, in [hdrs], the
    headers the source sets with [message[k] = v], in the order it sets
    them.  The headers that the library adds itself (Content-Type,
    MIME-Version, Content-Transfer-Encoding) follow from the constructor
    and are not listed. *)
#[local] Unset Elimination Schemes.
Inductive Mime :=
| MIMEText (text subtype : pystr) (hdrs : list (pystr * pystr))
| MIMEMultipart (subtype : pystr) (attached : list Mime)
    (hdrs : list (pystr * pystr))
| MIMEApplication (content : pybytes) (Name : pystr)
    (hdrs : list (pystr * pystr)).
#[local] Set Elimination Schemes.

Definition mime_headers (m : Mime) : list (pystr * pystr) :=
  match m with
  | MIMEText _ _ h => h
  | MIMEMultipart _ _ h => h
  | MIMEApplication _ _ h => h
  end.

(** [message[k] = v] appends a header. *)
Definition set_header (m : Mime) (k v : pystr) : Mime :=
  match m with
  | MIMEText t s h => MIMEText t s (h ++ [(k, v)])
  | MIMEMultipart s ps h => MIMEMultipart s ps (h ++ [(k, v)])
  | MIMEApplication c n h => MIMEApplication c n (h ++ [(k, v)])
  end.

(** [if v: message[k] = v] for an optional [v]. *)
Definition set_header_if (m : Mime) (k : pystr) (v : option pystr) : Mime :=
  match v with
  | Some s => if truthy s then set_header m k s else m
  | None => m
  end.

(** [message[k]]: the value of the first header named [k], names
    compared without case. *)
Fixpoint first_header (k : pystr) (h : list (pystr * pystr)) : option pystr :=
  match h with
  | [] => None
  | (k', v) :: h' =>
      if bool_decide (lower k' = lower k) then Some v else first_header k h'
  end.

Definition get_header (m : Mime) (k : pystr) : option pystr :=
  first_header k (mime_headers m).

(** [message.attach(part)]; the source attaches to multipart messages
    only (on another message the library raises). *)
Definition attach (m part : Mime) : Mime :=
  match m with
  | MIMEMultipart s ps h => MIMEMultipart s (ps ++ [part]) h
  | _ => m
  end.

(** The text of the first [text/plain] part of a message built by the
    tools: the message itself when it is a single text part, else the
    part attached first with that subtype. *)
Definition plain_of_part (m : Mime) : option pystr :=
  match m with
  | MIMEText t s _ => if bool_decide (s = py "plain") then Some t else None
  | _ => None
  end.

Definition plain_body (m : Mime) : option pystr :=
  match m with
  | MIMEText _ _ _ => plain_of_part m
  | MIMEMultipart _ ps _ => list_find (fun p => is_Some (plain_of_part p)) ps
                            ≫= fun '(_, p) => plain_of_part p
  | MIMEApplication _ _ _ => None
  end.

(** The message of [send_email] (lines 130-156), given the address of
    the profile. *)
Definition send_email_message (to subject body : pystr)
    (cc bcc html_body importance : option pystr) (from_email : pystr) : Mime :=
  let message := MIMEMultipart (py "alternative") [] [] in
  let message := set_header message (py "To") to in
  let message := set_header message (py "Subject") subject in
  let message := set_header message (py "From") from_email in
  let message := set_header_if message (py "Cc") cc in
  let message := set_header_if message (py "Bcc") bcc in
  let message :=
    match importance with
    | Some importance =>
        if truthy importance then
          if bool_decide (lower importance = py "high") then
            set_header (set_header message (py "Importance") (py "high"))
              (py "X-Priority") (py "1")
          else if bool_decide (lower importance = py "low") then
            set_header (set_header message (py "Importance") (py "low"))
              (py "X-Priority") (py "5")
          else message
        else message
    | None => message
    end in
  let message := attach message (MIMEText body (py "plain") []) in
  let message :=
    match html_body with
    | Some html => if truthy html
                   then attach message (MIMEText html (py "html") [])
                   else message
    | None => message
    end in
  message.

(** ** Serialisation of a text part ([MIMEText], [message.as_bytes()])

    The tools hand [message.as_bytes()] to the API.  What this does to
    the text of a part is library code: [MIMEText] takes the charset
    us-ascii when the text is ASCII and utf-8 otherwise.  An ASCII text
    is written 7bit by the generator, which splits it at every CR LF,
    CR or LF and writes the lines with the line separator of the policy,
    LF ([_write_lines]); any other text is written in base64, so its
    UTF-8 bytes come through as they are. *)
Definition is_ascii (s : pystr) : bool :=
  forallb (fun c => (0 <=? c) && (c <? 128)) s.

Fixpoint write_lines (s : pystr) : pystr :=
  match s with
  | [] => []
  | c :: r =>
      if c =? 13 then
        10 :: match r with
              | d :: r' => if d =? 10 then write_lines r' else write_lines r
              | [] => []
              end
      else c :: write_lines r
  end.

(** The text whose UTF-8 bytes are the content of the part
    [MIMEText(text, subtype)] in the serialised message. *)
Definition as_bytes_text (text : pystr) : pystr :=
  if is_ascii text then write_lines text else text.

(** ** The transport's view of a message (external)

    The Gmail API is a collaborator of the source, not part of it.  It
    parses the raw message it is sent and serves it back as a payload
    tree: a container has its parts and no data, a text part has the
    base64url of its content as data, a file part has a file name and no
    inline data (an attachment id instead).  [gmail_payload] is the tree
    of an API that serves every content byte for byte as it was
    serialised; it gives the example payloads.  What the properties
    assume of the API is stated apart, as [api_serves]. *)
Definition gmail_headers (h : list (pystr * pystr)) : list Header :=
  map (fun kv => {| name := fst kv; value := snd kv |}) h.

Fixpoint gmail_payload (m : Mime) : Payload :=
  match m with
  | MIMEText text subtype h =>
      let raw := Utf8.encode (as_bytes_text text) in
      {| mimeType := Some (py "text/" ++ subtype);
         filename := Some [];
         body := Some {| data := Some (Base64.urlsafe_b64encode raw);
                         size := Some (Z.of_nat (length raw)) |};
         parts := None;
         headers := Some (gmail_headers h) |}
  | MIMEMultipart subtype ps h =>
      {| mimeType := Some (py "multipart/" ++ subtype);
         filename := Some [];
         body := Some {| data := None; size := Some 0 |};
         parts := Some (map gmail_payload ps);
         headers := Some (gmail_headers h) |}
  | MIMEApplication content Name h =>
      {| mimeType := Some (py "application/octet-stream");
         filename := Some Name;
         body := Some {| data := None;
                         size := Some (Z.of_nat (length content)) |};
         parts := None;
         headers := Some (gmail_headers h) |}
  end.

(** A string of Unicode scalar values: what [str.encode('utf-8')]
    accepts. *)
Definition scalar_value (c : Z) : Prop :=
  0 <= c < 1114112 /\ ~ (55296 <= c < 57344).

Definition scalar_values (s : pystr) : Prop := Forall scalar_value s.

(** ** The tools: environment, effects and results

    A tool reads its environment (the file system, the replies of the
    Gmail API) and changes the world: it calls the API, which may change
    the mailbox, it notifies the MCP context when it was given one, and
    it writes to the log.  A tool is a function from the world to a
    result and a new world; an exception leaves the world as it was when
    it was raised. *)
Record Message := {
  labelIds : option (list pystr);
  payload : option Payload
}.

Record Draft := { message : option Message }.

Inductive call :=
| GetProfile
| SendMessage (raw : Mime)
| GetDraft (draft_id : pystr)
| UpdateDraft (draft_id : pystr) (raw : Mime)
| GetMessage (msg_id : pystr)
| ModifyMessage (msg_id : pystr) (removeLabelIds addLabelIds : list pystr).

Inductive ctx_event :=
| CtxInfo (msg : pystr)
| CtxWarning (msg : pystr)
| CtxError (msg : pystr).

(** What the tools read.  [gmail_service] is the outcome of
    [get_gmail_service()].  [profile_email] is the address of the
    profile, absent when the profile has none; its exception is the one
    the tool sees ([get_profile] of [utils.gmail_api] answers [None] to
    an [HttpError], and the tool then fails on [profile.get]).
    [send_reply] and [update_reply] are the ids the API answers with, or
    the exception the call raises; the raw field of a request is
    [urlsafe_b64encode(message.as_bytes())], a function of the message,
    which stands for it here.  [draft_store] is [get_draft], which
    answers [None] for a draft it cannot fetch. *)
Record Env := {
  gmail_service : result unit;
  profile_email : result (option pystr);
  isfile : pystr -> bool;
  read_file : pystr -> result pybytes;
  send_reply : Mime -> result pystr;
  draft_store : pystr -> option Draft;
  update_reply : pystr -> Mime -> result pystr
}.

(** What the tools change: the mailbox, the calls made to the API, the
    notifications sent to the MCP context and the lines written to the
    log of the server. *)
Record World := {
  mailbox : gmap pystr Message;
  calls : list call;
  ctx_events : list ctx_event;
  logged : list pystr
}.

Definition M (A : Type) : Type := World -> result A * World.

Definition ret {A} (a : A) : M A := fun w => (Ok a, w).

Definition bind {A B} (m : M A) (f : A -> M B) : M B :=
  fun w =>
    match m w with
    | (Ok a, w') => f a w'
    | (Raise e, w') => (Raise e, w')
    end.

Definition lift {A} (r : result A) : M A := fun w => (r, w).

(** [try: m except Exception as e: h e] *)
Definition try_except {A} (m : M A) (h : exn -> M A) : M A :=
  fun w =>
    match m w with
    | (Ok a, w') => (Ok a, w')
    | (Raise e, w') => h e w'
    end.

Declare Scope tool_scope.
Delimit Scope tool_scope with tool.
Notation "x <- m ;; k" := (bind m (fun x => k))
  (at level 100, m at next level, k at level 200, right associativity)
  : tool_scope.
Notation "m ;; k" := (bind m (fun _ => k))
  (at level 100, k at level 200, right associativity) : tool_scope.

Definition record_call (c : call) : M unit :=
  fun w => (Ok tt, {| mailbox := mailbox w; calls := calls w ++ [c];
                      ctx_events := ctx_events w; logged := logged w |}).

(** [if ctx: ctx.info(msg)] and the like: nothing without a context. *)
Definition notify (ctx : bool) (ev : ctx_event) : M unit :=
  fun w =>
    if ctx
    then (Ok tt, {| mailbox := mailbox w; calls := calls w;
                    ctx_events := ctx_events w ++ [ev]; logged := logged w |})
    else (Ok tt, w).

Definition logger_error (msg : pystr) : M unit :=
  fun w => (Ok tt, {| mailbox := mailbox w; calls := calls w;
                      ctx_events := ctx_events w;
                      logged := logged w ++ [msg] |}).

(** [get_profile(service)] followed by [.get('emailAddress', '')]. *)
Definition get_profile (env : Env) : M pystr :=
  (record_call GetProfile ;;
   email <- lift (profile_email env) ;;
   ret (default [] email))%tool.

(** [send_message(service, {'raw': ...})] followed by [['id']]. *)
Definition send_message (env : Env) (raw : Mime) : M pystr :=
  (record_call (SendMessage raw) ;; lift (send_reply env raw))%tool.

Definition get_draft (env : Env) (draft_id : pystr) : M (option Draft) :=
  (record_call (GetDraft draft_id) ;; ret (draft_store env draft_id))%tool.

Definition update_draft (env : Env) (draft_id : pystr) (raw : Mime) : M pystr :=
  (record_call (UpdateDraft draft_id raw) ;;
   lift (update_reply env draft_id raw))%tool.

Definition not_found (msg_id : pystr) : exn :=
  Exn HttpError (py "Requested entity was not found.").

(** [get_message(service, message_id)]: the message of the mailbox, an
    [HttpError] when there is none. *)
Definition get_message (msg_id : pystr) : M Message :=
  (record_call (GetMessage msg_id) ;;
   fun w => match mailbox w !! msg_id with
            | Some msg => (Ok msg, w)
            | None => (Raise (not_found msg_id), w)
            end)%tool.

(** The effect of a label modification on a message (external). *)
Definition modify_labels (removeLabelIds addLabelIds : list pystr)
    (msg : Message) : Message :=
  {| labelIds :=
       Some (filter (fun l => l ∉ removeLabelIds) (default [] (labelIds msg))
             ++ addLabelIds);
     payload := payload msg |}.

Definition modify_message (msg_id : pystr)
    (removeLabelIds addLabelIds : list pystr) : M unit :=
  (record_call (ModifyMessage msg_id removeLabelIds addLabelIds) ;;
   fun w => match mailbox w !! msg_id with
            | Some msg =>
                (Ok tt,
                 {| mailbox := <[msg_id :=
                                   modify_labels removeLabelIds addLabelIds msg]>
                                 (mailbox w);
                    calls := calls w; ctx_events := ctx_events w;
                    logged := logged w |})
            | None => (Raise (not_found msg_id), w)
            end)%tool.

(** [return error_msg] of the handler that closes every tool. *)
Definition report (ctx : bool) (error_msg : pystr) : M pystr :=
  (logger_error error_msg ;; notify ctx (CtxError error_msg) ;;
   ret error_msg)%tool.

(** *** [send_email] *)
Definition send_email (env : Env) (to subject body : pystr)
    (cc bcc html_body importance : option pystr) (ctx : bool) : M pystr :=
  try_except
    (notify ctx (CtxInfo (py "Preparing to send email to " ++ to)) ;;
     lift (gmail_service env) ;;
     from_email <- get_profile env ;;
     let message :=
       send_email_message to subject body cc bcc html_body importance
         from_email in
     notify ctx (CtxInfo (py "Sending email...")) ;;
     id <- send_message env message ;;
     notify ctx (CtxInfo (py "Email sent successfully with ID: " ++ id)) ;;
     ret (py "Email sent successfully to " ++ to ++ py "." ++ newline
          ++ py "Subject: " ++ subject ++ newline
          ++ py "Message ID: " ++ id))%tool
    (fun e => report ctx (py "Error sending email: " ++ exn_str e)).

(** *** [send_email_with_multiple_attachments] *)

(** [os.path.basename]: what follows the last [/]. *)
Fixpoint basename (path : pystr) : pystr :=
  match path with
  | [] => []
  | c :: rest =>
      if bool_decide (47 ∈ path) then basename rest else path
  end.

Definition quote : pystr := [34].

(** The loop over [attachment_paths] (lines 351-364). *)
Fixpoint attach_files (env : Env) (ctx : bool) (attachment_paths : list pystr)
    (message : Mime) (attached_files missing_files : list pystr)
  : M (Mime * list pystr * list pystr) :=
  match attachment_paths with
  | [] => ret (message, attached_files, missing_files)
  | attachment_path :: rest =>
      if isfile env attachment_path then
        (let filename := basename attachment_path in
         notify ctx (CtxInfo (py "Attaching file: " ++ filename)) ;;
         content <- lift (read_file env attachment_path) ;;
         let part := MIMEApplication content filename [] in
         let part :=
           set_header part (py "Content-Disposition")
             (py "attachment; filename=" ++ quote ++ filename ++ quote) in
         attach_files env ctx rest (attach message part)
           (attached_files ++ [filename]) missing_files)%tool
      else
        attach_files env ctx rest message attached_files
          (missing_files ++ [attachment_path])
  end.

(** The message before the files are attached (lines 325-345).  The
    source attaches [msgAlternative] to the message first and the bodies
    to [msgAlternative] afterwards; the message holds the object, so it
    has the bodies all the same. *)
Definition mixed_message (to subject body : pystr)
    (cc bcc html_body : option pystr) (from_email : pystr) : Mime :=
  let message := MIMEMultipart (py "mixed") [] [] in
  let message := set_header message (py "To") to in
  let message := set_header message (py "Subject") subject in
  let message := set_header message (py "From") from_email in
  let message := set_header_if message (py "Cc") cc in
  let message := set_header_if message (py "Bcc") bcc in
  let msgAlternative := MIMEMultipart (py "alternative") [] [] in
  let msgAlternative := attach msgAlternative (MIMEText body (py "plain") []) in
  let msgAlternative :=
    match html_body with
    | Some html => if truthy html
                   then attach msgAlternative (MIMEText html (py "html") [])
                   else msgAlternative
    | None => msgAlternative
    end in
  attach message msgAlternative.

Definition missing_warning (missing_files : list pystr) : pystr :=
  py "Warning: The following attachment files were not found: "
  ++ join (py ", ") missing_files.

Definition none_found_error : pystr :=
  py "Error: None of the specified attachment files were found. Email not sent.".

Definition send_email_with_multiple_attachments (env : Env)
    (to subject body : pystr) (attachment_paths : list pystr)
    (cc bcc html_body : option pystr) (ctx : bool) : M pystr :=
  try_except
    (notify ctx
       (CtxInfo (py "Preparing to send email with multiple attachments to "
                 ++ to)) ;;
     lift (gmail_service env) ;;
     from_email <- get_profile env ;;
     let message := mixed_message to subject body cc bcc html_body from_email in
     r <- attach_files env ctx attachment_paths message [] [] ;;
     let '(message, attached_files, missing_files) := r in
     let send :=
       (notify ctx (CtxInfo (py "Sending email with attachments...")) ;;
        id <- send_message env message ;;
        notify ctx (CtxInfo (py "Email sent successfully with ID: " ++ id)) ;;
        ret (py "Email with "
             ++ str_int (Z.of_nat (length attached_files))
             ++ py " attachment(s) sent successfully to " ++ to ++ py "."
             ++ newline ++ py "Subject: " ++ subject ++ newline
             ++ py "Attached files: " ++ join (py ", ") attached_files
             ++ newline ++ py "Message ID: " ++ id)) in
     match missing_files with
     | _ :: _ =>
         notify ctx (CtxWarning (missing_warning missing_files)) ;;
         match attached_files with
         | [] => ret none_found_error
         | _ :: _ => send
         end
     | [] => send
     end)%tool
    (fun e => report ctx (py "Error sending email with attachments: "
                          ++ exn_str e)).

(** *** [update_email_draft] *)

(** The dict comprehension of lines 511-514: header names in lower
    case; of two headers with the same name the later one stays. *)
Definition existing_headers (existing_payload : Payload) : gmap pystr pystr :=
  foldl (fun d header => <[lower (name header) := value header]> d) ∅
        (default [] (headers existing_payload)).

(** Lines 517-520. *)
Definition final_to (to : option pystr) (hs : gmap pystr pystr) : pystr :=
  match to with Some v => v | None => default [] (hs !! py "to") end.

Definition final_subject (subject : option pystr) (hs : gmap pystr pystr)
  : pystr :=
  match subject with Some v => v | None => default [] (hs !! py "subject") end.

Definition final_cc (cc : option pystr) (hs : gmap pystr pystr)
  : option pystr :=
  match cc with Some v => Some v | None => hs !! py "cc" end.

Definition final_bcc (bcc : option pystr) (hs : gmap pystr pystr)
  : option pystr :=
  match bcc with Some v => Some v | None => hs !! py "bcc" end.

(** [base64.urlsafe_b64decode(data).decode('utf-8')] *)
Definition decode_strict (d : pystr) : result pystr :=
  rbind (Base64.urlsafe_b64decode d) (Utf8.decode Utf8.strict).

(** The data of a part when ['data' in part.get('body', {})]. *)
Definition body_data (p : Payload) : option pystr := body p ≫= data.

(** One test of the loop of lines 541-545: a body that is still [None]
    takes the text of a part of the given type that has data. *)
Definition take_part (mime_type : pystr) (final : option pystr)
    (part : Payload) : result (option pystr) :=
  match final, body_data part with
  | None, Some d =>
      if bool_decide (mimeType part = Some mime_type)
      then rbind (decode_strict d) (fun t => Ok (Some t))
      else Ok final
  | _, _ => Ok final
  end.

Fixpoint scan_parts (ps : list Payload)
    (final_plain_body final_html_body : option pystr)
  : result (option pystr * option pystr) :=
  match ps with
  | [] => Ok (final_plain_body, final_html_body)
  | part :: rest =>
      rbind (take_part (py "text/plain") final_plain_body part)
        (fun final_plain_body =>
      rbind (take_part (py "text/html") final_html_body part)
        (fun final_html_body =>
      scan_parts rest final_plain_body final_html_body))
  end.

(** Lines 533-545: the bodies of the existing draft, looked for in the
    payload itself or among its direct parts. *)
Definition existing_bodies (existing_payload : Payload)
  : result (option pystr * option pystr) :=
  let ps := default [] (parts existing_payload) in
  match ps, body_data existing_payload with
  | [], Some d =>
      if bool_decide (mimeType existing_payload = Some (py "text/plain"))
      then rbind (decode_strict d) (fun t => Ok (Some t, None))
      else if bool_decide (mimeType existing_payload = Some (py "text/html"))
      then rbind (decode_strict d) (fun t => Ok (None, Some t))
      else Ok (None, None)
  | _, _ => scan_parts ps None None
  end.

(** Lines 527-549. *)
Definition final_bodies (existing_payload : Payload)
    (body html_body : option pystr) : result (option pystr * option pystr) :=
  match body, html_body with
  | None, None =>
      rbind (existing_bodies existing_payload)
        (fun '(plain, html) => Ok (Some (default [] plain), html))
  | _, _ => Ok (body, html_body)
  end.

(** Lines 553-566: [None] stands for the error return. *)
Definition new_mime_message (final_plain_body final_html_body : option pystr)
  : option Mime :=
  if truthy_opt final_html_body then
    let m := MIMEMultipart (py "alternative") [] [] in
    let m :=
      if truthy_opt final_plain_body
      then attach m (MIMEText (default [] final_plain_body) (py "plain") [])
      else attach m (MIMEText [] (py "plain") []) in
    Some (attach m (MIMEText (default [] final_html_body) (py "html") []))
  else
    match final_plain_body with
    | Some plain => Some (MIMEText plain (py "plain") [])
    | None => None
    end.

(** Lines 509-574: the subject and the message of the updated draft,
    before the From header is added. *)
Definition merge_draft (existing_payload : Payload)
    (to subject body cc bcc html_body : option pystr)
  : result (option (pystr * Mime)) :=
  let hs := existing_headers existing_payload in
  rbind (final_bodies existing_payload body html_body) (fun '(plain, html) =>
  match new_mime_message plain html with
  | None => Ok None
  | Some m =>
      let m := set_header m (py "To") (final_to to hs) in
      let m := set_header m (py "Subject") (final_subject subject hs) in
      let m := set_header_if m (py "Cc") (final_cc cc hs) in
      let m := set_header_if m (py "Bcc") (final_bcc bcc hs) in
      Ok (Some (final_subject subject hs, m))
  end).

Definition empty_payload : Payload := MkPayload None None None None None.

(** [draft_data.get('message', {}).get('payload', {})] *)
Definition draft_payload (draft_data : Draft) : Payload :=
  default empty_payload (message draft_data ≫= payload).

Definition empty_body_error : pystr :=
  py "Error: Cannot update draft with empty body. Provide plain or HTML body.".

(** The tool.  For an [HttpError] the text of the exception stands for
    the detail that the handler extracts from it. *)
Definition update_email_draft (env : Env) (draft_id : pystr)
    (to subject body cc bcc html_body : option pystr) (ctx : bool) : M pystr :=
  try_except
    (notify ctx
       (CtxInfo (py "Attempting to update draft with ID: " ++ draft_id)) ;;
     lift (gmail_service env) ;;
     draft_data <- get_draft env draft_id ;;
     match draft_data with
     | None =>
         report ctx (py "Error: Draft with ID '" ++ draft_id
                     ++ py "' not found.")
     | Some draft_data =>
         merged <- lift (merge_draft (draft_payload draft_data)
                           to subject body cc bcc html_body) ;;
         match merged with
         | None => report ctx empty_body_error
         | Some (final_subject, new_mime_message) =>
             from_email <- get_profile env ;;
             let new_mime_message :=
               set_header new_mime_message (py "From") from_email in
             notify ctx (CtxInfo (py "Sending update request for draft ID: "
                                  ++ draft_id)) ;;
             id <- update_draft env draft_id new_mime_message ;;
             notify ctx (CtxInfo (py "Draft " ++ id
                                  ++ py " updated successfully.")) ;;
             ret (py "Draft '" ++ final_subject ++ py "' (ID: " ++ id
                  ++ py ") updated successfully.")
         end
     end)%tool
    (fun e =>
       match exn_kind_of e with
       | HttpError =>
           (logger_error (py "API error updating draft " ++ draft_id
                          ++ py ": " ++ exn_str e) ;;
            notify ctx (CtxError (py "API Error: " ++ exn_str e)) ;;
            ret (py "Error updating draft: " ++ exn_str e))%tool
       | _ =>
           report ctx (py "Unexpected error updating draft " ++ draft_id
                       ++ py ": " ++ exn_str e)
       end).

(** *** [mark_as_read] *)

(** ['labelIds' in msg and 'UNREAD' not in msg['labelIds']] *)
Definition already_read (msg : Message) : bool :=
  match labelIds msg with
  | Some ls => bool_decide (py "UNREAD" ∉ ls)
  | None => false
  end.

Definition already_read_msg (message_id : pystr) : pystr :=
  py "Message " ++ message_id ++ py " is already marked as read.".

Definition mark_as_read (env : Env) (message_id : pystr) (ctx : bool)
  : M pystr :=
  try_except
    (notify ctx (CtxInfo (py "Marking message " ++ message_id
                          ++ py " as read")) ;;
     lift (gmail_service env) ;;
     found <- try_except (msg <- get_message message_id ;; ret (Some msg))
                         (fun _ => ret None) ;;
     match found with
     | None => ret (py "Message with ID " ++ message_id ++ py " not found.")
     | Some msg =>
         if already_read msg then ret (already_read_msg message_id)
         else
           modify_message message_id [py "UNREAD"] [] ;;
           ret (py "Message " ++ message_id ++ py " marked as read")
     end)%tool
    (fun e => report ctx (py "Error marking message as read: " ++ exn_str e)).

(** * Further tools and helpers *)

(** ** [mark_as_unread] *)

(** ['labelIds' in msg and 'UNREAD' in msg['labelIds']] *)
Definition already_unread (msg : Message) : bool :=
  match labelIds msg with
  | Some ls => bool_decide (py "UNREAD" ∈ ls)
  | None => false
  end.

Definition already_unread_msg (message_id : pystr) : pystr :=
  py "Message " ++ message_id ++ py " is already marked as unread.".

Definition mark_as_unread (env : Env) (message_id : pystr) (ctx : bool)
  : M pystr :=
  try_except
    (notify ctx (CtxInfo (py "Marking message " ++ message_id
                          ++ py " as unread")) ;;
     lift (gmail_service env) ;;
     found <- try_except (msg <- get_message message_id ;; ret (Some msg))
                         (fun _ => ret None) ;;
     match found with
     | None => ret (py "Message with ID " ++ message_id ++ py " not found.")
     | Some msg =>
         if already_unread msg then ret (already_unread_msg message_id)
         else
           modify_message message_id [] [py "UNREAD"] ;;
           ret (py "Message " ++ message_id ++ py " marked as unread")
     end)%tool
    (fun e => report ctx (py "Error marking message as unread: "
                          ++ exn_str e)).

(** ** [send_email_with_attachment]

    The message before the file is attached (lines 222-242) is built as
    in [send_email_with_multiple_attachments]. *)
Definition attachment_not_found (attachment_path : pystr) : pystr :=
  py "Error: Attachment file not found at path " ++ attachment_path.

Definition send_email_with_attachment (env : Env)
    (to subject body attachment_path : pystr)
    (cc bcc html_body : option pystr) (ctx : bool) : M pystr :=
  try_except
    (notify ctx
       (CtxInfo (py "Preparing to send email with attachment to " ++ to)) ;;
     lift (gmail_service env) ;;
     from_email <- get_profile env ;;
     let message := mixed_message to subject body cc bcc html_body from_email in
     if isfile env attachment_path then
       let filename := basename attachment_path in
       notify ctx (CtxInfo (py "Attaching file: " ++ filename)) ;;
       content <- lift (read_file env attachment_path) ;;
       let part := MIMEApplication content filename [] in
       let part :=
         set_header part (py "Content-Disposition")
           (py "attachment; filename=" ++ quote ++ filename ++ quote) in
       let message := attach message part in
       notify ctx (CtxInfo (py "Sending email with attachment...")) ;;
       id <- send_message env message ;;
       notify ctx (CtxInfo (py "Email sent successfully with ID: " ++ id)) ;;
       ret (py "Email with attachment '" ++ filename
            ++ py "' sent successfully to " ++ to ++ py "." ++ newline
            ++ py "Subject: " ++ subject ++ newline
            ++ py "Message ID: " ++ id)
     else
       let error_msg := attachment_not_found attachment_path in
       notify ctx (CtxError error_msg) ;;
       ret error_msg)%tool
    (fun e => report ctx (py "Error sending email with attachment: "
                          ++ exn_str e)).

(** ** [get_message_subject] of [utils/gmail_api.py] *)
Fixpoint subject_header (hs : list Header) : option pystr :=
  match hs with
  | [] => None
  | header :: rest =>
      if bool_decide (lower (name header) = py "subject")
      then Some (value header)
      else subject_header rest
  end.

Definition get_message_subject (message : Message) : pystr :=
  match payload message ≫= headers with
  | Some hs => default (py "No Subject") (subject_header hs)
  | None => py "No Subject"
  end.

(** ** [format_size] of [get_email_profile]

    [f"{num/den:.2f}"] where [den] is a power of two and
    [0 <= num < 2^53]: the quotient rounded to two decimals. *)
Definition two_digits (k : Z) : pystr :=
  if k <? 10 then py "0" ++ str_int k else str_int k.

Definition format_2f (num den : Z) : pystr :=
  let hundredths := round_half_even (100 * num) den in
  str_int (hundredths / 100) ++ py "." ++ two_digits (hundredths mod 100).

Definition format_size (size_bytes : Z) : pystr :=
  if size_bytes <? 1024 then str_int size_bytes ++ py " bytes"
  else if size_bytes <? 1024 * 1024
  then format_2f size_bytes 1024 ++ py " KB"
  else if size_bytes <? 1024 * 1024 * 1024
  then format_2f size_bytes (1024 * 1024) ++ py " MB"
  else format_2f size_bytes (1024 * 1024 * 1024) ++ py " GB".

(** ** [batch_delete_emails]

    The tool searches, then moves every message found to the trash, one
    call each.  What it does is kept as the list of its events, in
    order: the notifications to the MCP context (when there is one), the
    calls to [delete_message], and the lines of the log. *)
Module Batch.

Inductive event :=
| Info (msg : pystr)
| ReportProgress (i total : Z)
| DeleteMessage (msg_id : pystr)
| LogWarning (msg : pystr)
| LogError (msg : pystr)
| CtxErr (msg : pystr).

(** What the tool reads: the outcome of [get_gmail_service()]; what
    [search_messages] answers to a query (the helper answers the empty
    list to an [HttpError]); and the outcome of [delete_message] on an
    id, given the events so far. *)
Record Api := {
  service : result unit;
  search_messages : pystr -> Z -> result (list pystr);
  delete_message : list event -> pystr -> result unit
}.

(** The loop of lines 1529-1539, from index [i]. *)
Fixpoint delete_loop (api : Api) (ctx : bool) (total i : Z)
    (message_ids : list pystr) (success_count : Z) (evs : list event)
  : Z * list event :=
  match message_ids with
  | [] => (success_count, evs)
  | msg_id :: rest =>
      let evs := if ctx then evs ++ [ReportProgress i total] else evs in
      match delete_message api evs msg_id with
      | Ok _ =>
          delete_loop api ctx total (i + 1) rest (success_count + 1)
            (evs ++ [DeleteMessage msg_id])
      | Raise e =>
          delete_loop api ctx total (i + 1) rest success_count
            (evs ++ [DeleteMessage msg_id;
                     LogWarning (py "Error deleting message " ++ msg_id
                                 ++ py ": " ++ exn_str e)])
      end
  end.

(** The handler of the tool. *)
Definition failed (ctx : bool) (e : exn) (evs : list event)
  : pystr * list event :=
  let error_msg := py "Error batch deleting messages: " ++ exn_str e in
  (error_msg,
   evs ++ [LogError error_msg] ++ (if ctx then [CtxErr error_msg] else [])).

Definition batch_delete_emails (api : Api) (query : pystr) (max_messages : Z)
    (ctx : bool) : pystr * list event :=
  let evs :=
    if ctx
    then [Info (py "Moving messages matching query '" ++ query
                ++ py "' to trash")]
    else [] in
  match service api with
  | Raise e => failed ctx e evs
  | Ok _ =>
      match search_messages api query max_messages with
      | Raise e => failed ctx e evs
      | Ok message_ids =>
          match message_ids with
          | [] => (py "No messages found matching query: '" ++ query
                   ++ py "'.", evs)
          | _ :: _ =>
              let total := Z.of_nat (length message_ids) in
              let '(success_count, evs) :=
                delete_loop api ctx total 0 message_ids 0 evs in
              (py "Moved " ++ str_int success_count ++ py " out of "
               ++ str_int total
               ++ py " messages that matched your query to trash.", evs)
          end
      end
  end.

(** The ids that [delete_message] was called on, and the warnings
    logged. *)
Definition deleted (evs : list event) : list pystr :=
  omap (fun ev => match ev with DeleteMessage i => Some i | _ => None end) evs.

Definition warnings (evs : list event) : list pystr :=
  omap (fun ev => match ev with LogWarning m => Some m | _ => None end) evs.

Definition errors (evs : list event) : list pystr :=
  omap (fun ev => match ev with
                  | LogError m => Some m
                  | CtxErr m => Some m
                  | _ => None
                  end) evs.

(** An API that finds three messages and fails to delete the second. *)
Definition example_api : Api :=
  {| service := Ok tt;
     search_messages := fun _ _ => Ok [py "m1"; py "m2"; py "m3"];
     delete_message := fun _ msg_id =>
       if bool_decide (msg_id = py "m2")
       then Raise (Exn HttpError (py "Requested entity was not found."))
       else Ok tt |}.

End Batch.

(** * Definitions used to state the properties *)

(** The headers of the message of [send_email] before the importance
    headers. *)
Definition address_headers (to subject from_email : pystr)
    (cc bcc : option pystr) : list (pystr * pystr) :=
  [(py "To", to); (py "Subject", subject); (py "From", from_email)]
  ++ (if truthy_opt cc then [(py "Cc", default [] cc)] else [])
  ++ (if truthy_opt bcc then [(py "Bcc", default [] bcc)] else []).

Definition importance_headers (importance : option pystr)
  : list (pystr * pystr) :=
  match importance with
  | Some imp =>
      if bool_decide (lower imp = py "high")
      then [(py "Importance", py "high"); (py "X-Priority", py "1")]
      else if bool_decide (lower imp = py "low")
      then [(py "Importance", py "low"); (py "X-Priority", py "5")]
      else []
  | None => []
  end.


(** An environment and a world for the examples: the API is up, the
    profile has an address, the only file is [/tmp/a.txt], and the
    mailbox holds one message, read, in the inbox. *)
Definition example_env : Env :=
  {| gmail_service := Ok tt;
     profile_email := Ok (Some (py "me@x.com"));
     isfile := fun p => bool_decide (p = py "/tmp/a.txt");
     read_file := fun _ => Ok [104; 105];
     send_reply := fun _ => Ok (py "m2");
     draft_store := fun _ => None;
     update_reply := fun d _ => Ok d |}.

Definition example_message : Message :=
  {| labelIds := Some [py "INBOX"]; payload := None |}.

Definition example_world : World :=
  {| mailbox := {[ py "m1" := example_message ]};
     calls := []; ctx_events := []; logged := [] |}.

(** The part that [attach_files] builds for a file. *)
Definition attachment_part (filename : pystr) (content : pybytes) : Mime :=
  set_header (MIMEApplication content filename []) (py "Content-Disposition")
    (py "attachment; filename=" ++ quote ++ filename ++ quote).

(** The paths that are regular files, those that are not, and the
    content of a file that can be read. *)
Definition attached_paths (env : Env) (paths : list pystr) : list pystr :=
  filter (fun p => isfile env p = true) paths.

Definition missing_paths (env : Env) (paths : list pystr) : list pystr :=
  filter (fun p => isfile env p = false) paths.

Definition file_content (env : Env) (path : pystr) : pybytes :=
  match read_file env path with Ok c => c | Raise _ => [] end.

Definition file_part (env : Env) (path : pystr) : Mime :=
  attachment_part (basename path) (file_content env path).

(** The world after the context was told [evs], if there is one. *)
Definition told (ctx : bool) (evs : list ctx_event) (w : World) : World :=
  if ctx
  then {| mailbox := mailbox w; calls := calls w;
          ctx_events := ctx_events w ++ evs; logged := logged w |}
  else w.

(** The headers that [merge_draft] sets on the new message. *)
Definition optional_header (k : pystr) (v : option pystr)
  : list (pystr * pystr) :=
  if truthy_opt v then [(k, default [] v)] else [].

Definition draft_headers (to subject cc bcc : option pystr)
    (hs : gmap pystr pystr) : list (pystr * pystr) :=
  [(py "To", final_to to hs); (py "Subject", final_subject subject hs)]
  ++ optional_header (py "Cc") (final_cc cc hs)
  ++ optional_header (py "Bcc") (final_bcc bcc hs).

(** A draft as [create_email_draft] makes it (the message of
    [send_email] without importance), seen through the API. *)
Definition example_draft : Payload :=
  gmail_payload
    (send_email_message (py "a@x.com") (py "S") (py "P")
       (Some (py "c@x.com")) None None None (py "me@x.com")).

(** The reduction as the specification words it: the remaining tags are
    stripped with a greedy match, [<.*>]. *)
Definition any_tag_greedy : Re.regex :=
  Re.Seq (Re.Lit (py "<")) (Re.Seq (Re.Star Re.dot) (Re.Lit (py ">"))).

Definition html_to_text_greedy (body : pystr) : pystr :=
  let body := Re.sub br_or_closing_tag newline body in
  let body := Re.sub any_tag_greedy [] body in
  let body := Re.sub (Re.Lit (py "&nbsp;")) (py " ") body in
  let body := Re.sub (Re.Lit (py "&lt;")) (py "<") body in
  let body := Re.sub (Re.Lit (py "&gt;")) (py ">") body in
  let body := Re.sub (Re.Lit (py "&amp;")) (py "&") body in
  body.

(** Direct recognisers of the tokens that [html_to_text] replaces.  Each
    returns what follows the token at the start of the string.

    [br_tag]: [<br], white space, an optional [/], then [>]. *)
Fixpoint skip_spaces (s : pystr) : pystr :=
  match s with
  | c :: s' => if Re.is_space c then skip_spaces s' else s
  | [] => []
  end.

Definition br_tag (s : pystr) : option pystr :=
  match Re.strip_prefix (py "<br") s with
  | Some t =>
      let t := skip_spaces t in
      Re.or_else (Re.strip_prefix (py "/>") t) (Re.strip_prefix (py ">") t)
  | None => None
  end.

(** [closing_tag]: [</p>], [</div>] or [</h] digit [>]. *)
Definition closing_tag (s : pystr) : option pystr :=
  match Re.strip_prefix (py "</") s with
  | Some t =>
      Re.or_else (Re.strip_prefix (py "p>") t)
        (Re.or_else (Re.strip_prefix (py "div>") t)
           match Re.strip_prefix (py "h") t with
           | Some (d :: t') =>
               if Re.is_digit d then Re.strip_prefix (py ">") t' else None
           | _ => None
           end)
  | None => None
  end.

Definition br_or_closing (s : pystr) : option pystr :=
  Re.or_else (br_tag s) (closing_tag s).

(** [tag]: [<], then the nearest [>] that comes before any newline. *)
Fixpoint find_close (s : pystr) : option pystr :=
  match s with
  | [] => None
  | c :: s' =>
      if c =? 62 then Some s' else if c =? 10 then None else find_close s'
  end.

Definition tag (s : pystr) : option pystr :=
  match Re.strip_prefix (py "<") s with
  | Some s' => find_close s'
  | None => None
  end.

(** [rewrites tok repl s out]: [out] is [s] where, from left to right,
    every token that [tok] recognises is replaced by [repl] and every
    other character is kept. *)
Inductive rewrites (tok : pystr -> option pystr) (repl : pystr)
  : pystr -> pystr -> Prop :=
| rewrites_nil : rewrites tok repl [] []
| rewrites_token (pre rest out : pystr) :
    pre <> [] -> tok (pre ++ rest) = Some rest ->
    rewrites tok repl rest out ->
    rewrites tok repl (pre ++ rest) (repl ++ out)
| rewrites_keep (c : Z) (s out : pystr) :
    tok (c :: s) = None ->
    rewrites tok repl s out ->
    rewrites tok repl (c :: s) (c :: out).

(** A byte. *)
Definition is_byte (b : Z) : Prop := 0 <= b < 256.

(** A character that [b2a_base64] writes. *)
Definition b64_char (c : Z) : Prop :=
  c = Base64.pad \/ exists v, 0 <= v < 64 /\ c = Base64.table_b2a v.

(** A regular expression whose matches are never empty and leave a
    suffix of the string. *)
Definition proper (tok : pystr -> option pystr) : Prop :=
  forall s rest, tok s = Some rest -> exists pre, pre <> [] /\ s = pre ++ rest.

(** [api_serves m p]: the payload tree [p] serves the message [m].  It
    has the parts of [m], in order.  A container has no inline data and
    no file name; a file part has its file name and no inline data.  A
    text part has its type, no file name, no parts, and as data the
    base64url of the UTF-8 bytes of a text [Y] that is the serialised
    text of the part up to the line endings (an API may rewrite them);
    an empty text may come without data.  Sizes, headers and every other
    field are free. *)
Fixpoint api_serves (m : Mime) (p : Payload) {struct m} : Prop :=
  match m with
  | MIMEText text subtype _ =>
      mimeType p = Some (py "text/" ++ subtype) /\
      truthy_opt (filename p) = false /\
      (parts p = None \/ parts p = Some []) /\
      exists Y,
        scalar_values Y /\
        write_lines Y = write_lines (as_bytes_text text) /\
        (body_data p = Some (Base64.urlsafe_b64encode (Utf8.encode Y))
         \/ (Y = [] /\ inline_data p = None))
  | MIMEMultipart subtype ps _ =>
      mimeType p = Some (py "multipart/" ++ subtype) /\
      inline_data p = None /\
      truthy_opt (filename p) = false /\
      exists qs,
        parts p = Some qs /\
        (fix all2 (ps : list Mime) (qs : list Payload) {struct ps} : Prop :=
           match ps, qs with
           | [], [] => True
           | m' :: ps', q :: qs' => api_serves m' q /\ all2 ps' qs'
           | _, _ => False
           end) ps qs
  | MIMEApplication _ Name _ =>
      filename p = Some Name /\ inline_data p = None
  end.

(** A message with a plain body and the file of [example_env], as the
    API serves it, its text part, and an attachment found earlier. *)
Definition example_text_payload : Payload :=
  gmail_payload (MIMEText (py "B") (py "plain") []).

Definition example_mixed_payload : Payload :=
  gmail_payload
    (attach (mixed_message (py "a@x.com") (py "S") (py "B") None None None
               (py "me@x.com"))
       (file_part example_env (py "/tmp/a.txt"))).

Definition example_attachment : Attachment :=
  {| att_filename := py "first.pdf"; att_mimeType := py "application/pdf";
     att_size := py "1.0 KB" |}.

(** A draft with a plain and an HTML body, as the API serves it, and an
    environment whose draft store holds it under every id. *)
Definition example_html_draft : Payload :=
  gmail_payload
    (send_email_message (py "a@x.com") (py "S") (py "P") None None
       (Some (py "<b>P</b>")) None (py "me@x.com")).

Definition example_draft_env : Env :=
  {| gmail_service := Ok tt;
     profile_email := Ok (Some (py "me@x.com"));
     isfile := fun p => bool_decide (p = py "/tmp/a.txt");
     read_file := fun _ => Ok [104; 105];
     send_reply := fun _ => Ok (py "m2");
     draft_store := fun _ =>
       Some {| message := Some {| labelIds := None;
                                  payload := Some example_html_draft |} |};
     update_reply := fun d _ => Ok d |}.

(** An environment whose API cannot be reached. *)
Definition example_down_env : Env :=
  {| gmail_service := Raise (Exn OtherError (py "no credentials"));
     profile_email := Ok (Some (py "me@x.com"));
     isfile := fun _ => false;
     read_file := fun _ => Ok [];
     send_reply := fun _ => Ok (py "m2");
     draft_store := fun _ => None;
     update_reply := fun d _ => Ok d |}.

(** * Properties *)

(** ** Attachment size strings *)

Lemma round_half_even_nearest (a b : Z) :
  0 < b -> 2 * Z.abs (a - round_half_even a b * b) <= b.
Proof.
  intros Hb. unfold round_half_even.
  pose proof (Z.div_mod a b ltac:(lia)) as Hdm.
  pose proof (Z.mod_pos_bound a b Hb) as Hm.
  repeat case_match; lia.
Qed.

(** What the code does on every size: the comparisons of lines 889 and
    891 are strict, so 1024 is still shown in bytes and 1024^2 in KB;
    there is no bound above MB.  The digits are those of the quotient
    rounded to the nearest tenth (exact for sizes below 2^53). *)
Lemma size_str_thresholds (n : Z) :
  (n <= 1024 -> size_str n = str_int n ++ py " bytes") /\
  (1024 < n <= 1024 ^ 2 -> size_str n = format_1f n 1024 ++ py " KB") /\
  (1024 ^ 2 < n -> size_str n = format_1f n (1024 ^ 2) ++ py " MB") /\
  (forall d, 0 < d ->
     exists t, 2 * Z.abs (10 * n - t * d) <= d /\
               format_1f n d = str_int (t / 10) ++ py "." ++ str_int (t mod 10)) /\
  size_str 500 = py "500 bytes" /\
  size_str 2048 = py "2.0 KB" /\
  size_str 5242880 = py "5.0 MB".
Proof.
  change (1024 ^ 2) with 1048576.
  repeat split.
  - intros H. unfold size_str. change (1024 * 1024) with 1048576.
    destruct (1024 <? n) eqn:E1; [lia|].
    destruct (1048576 <? n) eqn:E2; [lia|]. reflexivity.
  - intros H. unfold size_str. change (1024 * 1024) with 1048576.
    destruct (1024 <? n) eqn:E1; [|lia].
    destruct (1048576 <? n) eqn:E2; [lia|]. reflexivity.
  - intros H. unfold size_str. change (1024 * 1024) with 1048576.
    destruct (1048576 <? n) eqn:E2; [|lia]. reflexivity.
  - intros d Hd. exists (round_half_even (10 * n) d). split.
    + apply round_half_even_nearest, Hd.
    + reflexivity.
Qed.

(** C3: the size string at the two thresholds.  The specification puts
    1024 in the KB range and 1024^2 in the MB range, as [format_size] of
    [get_email_profile] does; [read_email] compares with [>] and shows
    "1024 bytes" and "1024.0 KB" there.  The three examples of the
    specification hold. *)
Theorem size_str_boundaries :
  size_str 1024 = py "1024 bytes" /\
  size_str 1024 <> format_1f 1024 1024 ++ py " KB" /\
  format_1f 1024 1024 ++ py " KB" = py "1.0 KB" /\
  size_str 1048576 = py "1024.0 KB" /\
  size_str 1048576 <> format_1f 1048576 (1024 ^ 2) ++ py " MB" /\
  format_1f 1048576 (1024 ^ 2) ++ py " MB" = py "1.0 MB" /\
  size_str 500 = py "500 bytes" /\
  size_str 2048 = py "2.0 KB" /\
  size_str 5242880 = py "5.0 MB".
Proof. vm_compute. repeat split; congruence. Qed.

(** ** Body resolution *)

Lemma filter_no_match {A} (P : A -> Prop) `{!forall x, Decision (P x)} (l : list A) :
  Forall (fun x => ~ P x) l -> filter P l = [].
Proof.
  induction 1 as [|x l Hx _ IH]; [done|].
  rewrite filter_cons_False by done. exact IH.
Qed.

Lemma filter_first_match {A} (P : A -> Prop) `{!forall x, Decision (P x)}
    (pre post : list A) (x : A) :
  Forall (fun y => ~ P y) pre -> P x ->
  filter P (pre ++ x :: post) = x :: filter P post.
Proof.
  intros Hpre Hx. rewrite filter_app, (filter_no_match P pre Hpre).
  simpl. rewrite filter_cons_True by done. reflexivity.
Qed.

(** C4: the body is the newline-joined text of all [text/plain]
    fragments when there is one; else the HTML-to-text reduction of the
    first [text/html] fragment; else the fixed placeholder. *)
Theorem resolve_body_preference (parts : list (pystr * pystr)) :
  (Exists (fun p => fst p = py "text/plain") parts ->
   resolve_body parts =
     join newline (map snd (filter (fun p => fst p = py "text/plain") parts))) /\
  (Forall (fun p => fst p <> py "text/plain") parts ->
   forall pre h post,
     parts = pre ++ (py "text/html", h) :: post ->
     Forall (fun p => fst p <> py "text/html") pre ->
     resolve_body parts = html_to_text h) /\
  (Forall (fun p => fst p <> py "text/plain") parts ->
   Forall (fun p => fst p <> py "text/html") parts ->
   resolve_body parts = no_body_placeholder).
Proof.
  split; [|split].
  - intros Hex. unfold resolve_body.
    destruct (filter (fun p => fst p = py "text/plain") parts) as [|x l] eqn:E.
    + exfalso. apply Exists_exists in Hex as (p & Hin & Hp).
      assert (p ∈ filter (fun p => fst p = py "text/plain") parts) as Hf
        by (apply list_elem_of_filter; auto).
      rewrite E in Hf. inversion Hf.
    + reflexivity.
  - intros Hnp pre h post -> Hpre. unfold resolve_body.
    rewrite (filter_no_match (fun p => fst p = py "text/plain")) by exact Hnp.
    rewrite (filter_first_match (fun p => fst p = py "text/html")) by done.
    reflexivity.
  - intros Hnp Hnh. unfold resolve_body.
    rewrite (filter_no_match (fun p => fst p = py "text/plain")) by exact Hnp.
    rewrite (filter_no_match (fun p => fst p = py "text/html")) by exact Hnh.
    reflexivity.
Qed.

Lemma resolve_body_preference_witness :
  resolve_body [(py "text/html", py "<p>a</p>"); (py "text/plain", py "x");
                (py "text/plain", py "y")] = py "x" ++ newline ++ py "y" /\
  resolve_body [(py "image/png", py "z"); (py "text/html", py "<p>Hi</p>");
                (py "text/html", py "no")] = py "Hi" ++ newline /\
  resolve_body [(py "image/png", py "z")] = no_body_placeholder.
Proof.
  split; [|split].
  - apply (resolve_body_preference
             [(py "text/html", py "<p>a</p>"); (py "text/plain", py "x");
              (py "text/plain", py "y")]).
    apply Exists_cons_tl, Exists_cons_hd. reflexivity.
  - change (py "Hi" ++ newline) with (html_to_text (py "<p>Hi</p>")).
    apply (resolve_body_preference
             [(py "image/png", py "z"); (py "text/html", py "<p>Hi</p>");
              (py "text/html", py "no")])
      with (pre := [(py "image/png", py "z")]) (post := [(py "text/html", py "no")]).
    + repeat constructor; vm_compute; congruence.
    + reflexivity.
    + repeat constructor; vm_compute; congruence.
  - apply (resolve_body_preference [(py "image/png", py "z")]);
      repeat constructor; vm_compute; congruence.
Defined.

(** ** Importance headers of [send_email] *)

Lemma first_header_app (k : pystr) (h1 h2 : list (pystr * pystr)) :
  first_header k (h1 ++ h2) =
  match first_header k h1 with Some v => Some v | None => first_header k h2 end.
Proof.
  induction h1 as [|[k' v] h1 IH]; [done|].
  simpl. case_bool_decide; [done|exact IH].
Qed.

Lemma lower_nil_inv (s : pystr) : truthy s = false -> lower s = [].
Proof. destruct s; [done|discriminate]. Qed.

Lemma send_email_message_headers (to subject body : pystr)
    (cc bcc html_body importance : option pystr) (from_email : pystr) :
  mime_headers (send_email_message to subject body cc bcc html_body
                  importance from_email)
  = address_headers to subject from_email cc bcc
    ++ importance_headers importance.
Proof.
  unfold send_email_message, address_headers, importance_headers,
    set_header_if, truthy_opt.
  destruct cc as [c|], bcc as [b|];
    try destruct (truthy c); try destruct (truthy b);
    destruct importance as [imp|];
    try (destruct (truthy imp) eqn:Ht;
         [|rewrite (lower_nil_inv imp Ht)]);
    repeat case_bool_decide; try discriminate;
    destruct html_body as [h|]; try destruct (truthy h); reflexivity.
Qed.

Lemma address_headers_no_importance (to subject from_email : pystr)
    (cc bcc : option pystr) :
  first_header (py "Importance") (address_headers to subject from_email cc bcc)
    = None /\
  first_header (py "X-Priority") (address_headers to subject from_email cc bcc)
    = None.
Proof.
  unfold address_headers.
  destruct (truthy_opt cc), (truthy_opt bcc); split; reflexivity.
Qed.

Lemma send_email_message_unrecognized (to subject body : pystr)
    (cc bcc html_body importance : option pystr) (from_email : pystr) :
  importance_headers importance = [] ->
  send_email_message to subject body cc bcc html_body importance from_email
  = send_email_message to subject body cc bcc html_body None from_email.
Proof.
  unfold send_email_message, importance_headers.
  destruct importance as [imp|]; [|done].
  destruct (truthy imp); [|done].
  repeat case_bool_decide; done.
Qed.

(** C7: [high] and [low], in any case, set Importance and X-Priority to
    [high]/[1] and [low]/[5]; any other value, or none, sets neither
    header, and the tool then behaves as if no importance had been
    given. *)
Theorem importance_mapping (env : Env) (to subject body : pystr)
    (cc bcc html_body importance : option pystr) (from_email : pystr)
    (ctx : bool) :
  let message :=
    send_email_message to subject body cc bcc html_body importance from_email in
  (forall imp, importance = Some imp -> lower imp = py "high" ->
     get_header message (py "Importance") = Some (py "high") /\
     get_header message (py "X-Priority") = Some (py "1")) /\
  (forall imp, importance = Some imp -> lower imp = py "low" ->
     get_header message (py "Importance") = Some (py "low") /\
     get_header message (py "X-Priority") = Some (py "5")) /\
  ((forall imp, importance = Some imp ->
      lower imp <> py "high" /\ lower imp <> py "low") ->
     get_header message (py "Importance") = None /\
     get_header message (py "X-Priority") = None /\
     forall w, send_email env to subject body cc bcc html_body importance ctx w
               = send_email env to subject body cc bcc html_body None ctx w).
Proof.
  intros message. subst message. unfold get_header.
  rewrite send_email_message_headers, !first_header_app.
  destruct (address_headers_no_importance to subject from_email cc bcc)
    as [-> ->].
  split; [|split].
  - intros imp -> Hl. simpl. rewrite bool_decide_eq_true_2 by exact Hl.
    split; reflexivity.
  - intros imp -> Hl. simpl.
    rewrite bool_decide_eq_false_2 by (rewrite Hl; discriminate).
    rewrite bool_decide_eq_true_2 by exact Hl. split; reflexivity.
  - intros Hun.
    assert (importance_headers importance = []) as Hnil.
    { destruct importance as [imp|]; [|done]. simpl.
      destruct (Hun imp eq_refl) as [Hh Hl].
      rewrite !bool_decide_eq_false_2 by assumption. reflexivity. }
    rewrite Hnil. split; [done|split; [done|]].
    intros w. unfold send_email, try_except, bind.
    destruct (notify ctx _ w) as [[]]; [|done].
    destruct (lift (gmail_service env) _) as [[]]; [|done].
    destruct (get_profile env _) as [[from|] w2]; [|done].
    rewrite (send_email_message_unrecognized _ _ _ _ _ _ _ from Hnil).
    reflexivity.
Qed.

Lemma importance_mapping_witness :
  let message :=
    send_email_message (py "a@x.com") (py "S") (py "B") None None None
      (Some (py "HIGH")) (py "me@x.com") in
  let message' :=
    send_email_message (py "a@x.com") (py "S") (py "B") None None None
      (Some (py "Low")) (py "me@x.com") in
  let message'' :=
    send_email_message (py "a@x.com") (py "S") (py "B") None None None
      (Some (py "medium")) (py "me@x.com") in
  (get_header message (py "Importance") = Some (py "high") /\
   get_header message (py "X-Priority") = Some (py "1")) /\
  (get_header message' (py "Importance") = Some (py "low") /\
   get_header message' (py "X-Priority") = Some (py "5")) /\
  (get_header message'' (py "Importance") = None /\
   get_header message'' (py "X-Priority") = None).
Proof.
  pose (env := {| gmail_service := Ok tt; profile_email := Ok None;
                  isfile := fun _ => false; read_file := fun _ => Ok [];
                  send_reply := fun _ => Ok []; draft_store := fun _ => None;
                  update_reply := fun _ _ => Ok [] |}).
  split; [|split].
  - apply (importance_mapping env (py "a@x.com") (py "S") (py "B") None None
             None (Some (py "HIGH")) (py "me@x.com") false) with (imp := py "HIGH");
      reflexivity.
  - apply (importance_mapping env (py "a@x.com") (py "S") (py "B") None None
             None (Some (py "Low")) (py "me@x.com") false) with (imp := py "Low");
      reflexivity.
  - destruct (importance_mapping env (py "a@x.com") (py "S") (py "B") None None
             None (Some (py "medium")) (py "me@x.com") false) as (_ & _ & H).
    destruct H as (H1 & H2 & _).
    + intros imp [= <-]. vm_compute. split; congruence.
    + split; assumption.
Defined.

(** ** [mark_as_read] *)

(** Unfold the operations of the tool monad, and nothing else. *)
Ltac tool_unfold :=
  cbv beta iota zeta delta
    [bind ret lift try_except record_call notify logger_error report
     get_message modify_message get_profile send_message get_draft
     update_draft mailbox calls ctx_events logged].


Lemma already_read_spec (msg : Message) :
  already_read msg = true <->
  exists ls, labelIds msg = Some ls /\ py "UNREAD" ∉ ls.
Proof.
  unfold already_read. destruct (labelIds msg) as [ls|].
  - rewrite bool_decide_eq_true. split; [eauto|]. intros (? & [= <-] & ?). done.
  - split; [discriminate|]. intros (? & [=] & _).
Qed.

(** C10: for a message that exists and whose labelIds do not contain
    UNREAD, [mark_as_read] answers "already marked as read", calls the
    API only to fetch the message and leaves the mailbox as it was; when
    labelIds is absent or contains UNREAD, the modification is issued. *)
Theorem mark_as_read_already_read (env : Env) (message_id : pystr)
    (ctx : bool) (w : World) (msg : Message) :
  gmail_service env = Ok tt ->
  mailbox w !! message_id = Some msg ->
  let (r, w') := mark_as_read env message_id ctx w in
  ((exists ls, labelIds msg = Some ls /\ py "UNREAD" ∉ ls) ->
     r = Ok (already_read_msg message_id) /\
     mailbox w' = mailbox w /\
     calls w' = calls w ++ [GetMessage message_id]) /\
  (labelIds msg = None \/ (exists ls, labelIds msg = Some ls /\ py "UNREAD" ∈ ls) ->
     calls w' = calls w ++ [GetMessage message_id;
                            ModifyMessage message_id [py "UNREAD"] []]).
Proof.
  intros Hs Hm. destruct w as [mb cs evs lg]. cbn [mailbox] in Hm.
  unfold mark_as_read. tool_unfold. rewrite Hs.
  destruct ctx; tool_unfold; rewrite Hm.
  all: destruct (already_read msg) eqn:Har; tool_unfold; try rewrite Hm.
  all: split;
    [ intros Hex; apply already_read_spec in Hex;
      try (rewrite Har in Hex; discriminate); auto
    | intros Hun;
      try (apply already_read_spec in Har as (ls & Hl & Hn);
           destruct Hun as [Hun|(ls' & Hl' & Hin)]; congruence);
      rewrite <- app_assoc; reflexivity ].
Qed.

Lemma mark_as_read_already_read_witness :
  let (r, w') := mark_as_read example_env (py "m1") true example_world in
  r = Ok (already_read_msg (py "m1")) /\
  mailbox w' = mailbox example_world /\
  calls w' = [GetMessage (py "m1")].
Proof.
  pose proof (mark_as_read_already_read example_env (py "m1") true
                example_world example_message eq_refl
                (lookup_singleton_eq (M := gmap pystr) (py "m1") example_message)) as H.
  destruct (mark_as_read example_env (py "m1") true example_world) as [r w'].
  destruct H as [H _]. apply H.
  exists [py "INBOX"]. split; [reflexivity|].
  intros Hin. apply list_elem_of_singleton in Hin. discriminate Hin.
Defined.

(** ** [send_email_with_multiple_attachments] *)

Lemma told_nil (ctx : bool) (w : World) : told ctx [] w = w.
Proof. destruct ctx, w; unfold told; simpl; rewrite ?app_nil_r; reflexivity. Qed.

Lemma told_told (ctx : bool) (e1 e2 : list ctx_event) (w : World) :
  told ctx e2 (told ctx e1 w) = told ctx (e1 ++ e2) w.
Proof. destruct ctx, w; unfold told; simpl; rewrite ?app_assoc; reflexivity. Qed.

Lemma notify_told (ctx : bool) (ev : ctx_event) (w : World) :
  notify ctx ev w = (Ok tt, told ctx [ev] w).
Proof. destruct ctx; reflexivity. Qed.

Lemma attach_files_run (env : Env) (ctx : bool) (paths : list pystr) :
  (forall p, p ∈ paths -> isfile env p = true ->
             exists c, read_file env p = Ok c) ->
  forall (message : Mime) (attached missing : list pystr) (w : World),
    attach_files env ctx paths message attached missing w =
    (Ok (foldl attach message (map (file_part env) (attached_paths env paths)),
         attached ++ map basename (attached_paths env paths),
         missing ++ missing_paths env paths),
     told ctx
       (map (fun p => CtxInfo (py "Attaching file: " ++ basename p))
            (attached_paths env paths)) w).
Proof.
  unfold attached_paths, missing_paths.
  induction paths as [|p paths IH]; intros Hread message attached missing w.
  - simpl. rewrite !app_nil_r, told_nil. reflexivity.
  - simpl attach_files. destruct (isfile env p) eqn:Hp.
    + destruct (Hread p ltac:(left) Hp) as [c Hc].
      unfold bind at 1. rewrite notify_told.
      unfold bind at 1. unfold lift at 1. rewrite Hc.
      rewrite IH by (intros q Hq; apply Hread; right; exact Hq).
      rewrite told_told.
      rewrite (filter_cons_True (fun p => isfile env p = true)) by exact Hp.
      rewrite (filter_cons_False (fun p => isfile env p = false))
        by (rewrite Hp; discriminate).
      simpl. unfold file_part at 2, file_content, attachment_part.
      rewrite Hc, <- !app_assoc. reflexivity.
    + rewrite IH by (intros q Hq; apply Hread; right; exact Hq).
      rewrite (filter_cons_False (fun p => isfile env p = true))
        by (rewrite Hp; discriminate).
      rewrite (filter_cons_True (fun p => isfile env p = false)) by exact Hp.
      rewrite <- !app_assoc. reflexivity.
Qed.

Lemma all_missing_iff (env : Env) (paths : list pystr) :
  attached_paths env paths = [] /\ missing_paths env paths <> [] <->
  paths <> [] /\ Forall (fun p => isfile env p = false) paths.
Proof.
  unfold attached_paths, missing_paths. split.
  - intros [Ha Hm]. split.
    + intros ->. apply Hm. reflexivity.
    + apply Forall_forall. intros p Hp.
      destruct (isfile env p) eqn:E; [|reflexivity].
      assert (p ∈ filter (fun p => isfile env p = true) paths) as Hin
        by (apply list_elem_of_filter; auto).
      rewrite Ha in Hin. inversion Hin.
  - intros [Hne Hall]. split.
    + apply filter_no_match. eapply Forall_impl; [exact Hall|].
      intros p Hp. simpl in Hp. rewrite Hp. discriminate.
    + destruct paths as [|p paths]; [done|].
      apply Forall_cons in Hall as [Hp _].
      rewrite filter_cons_True by exact Hp. discriminate.
Qed.

(** Without a context, a message with one file found and one missing is
    sent and nothing reports the missing path. *)
Lemma missing_warning_unreported_counterexample :
  let (r, w') :=
    send_email_with_multiple_attachments example_env (py "a@x.com") (py "S")
      (py "B") [py "/tmp/a.txt"; py "/nope"] None None None false
      example_world in
  attached_paths example_env [py "/tmp/a.txt"; py "/nope"] = [py "/tmp/a.txt"] /\
  missing_paths example_env [py "/tmp/a.txt"; py "/nope"] = [py "/nope"] /\
  (exists m, calls w' = [GetProfile; SendMessage m]) /\
  ctx_events w' = [] /\ logged w' = [] /\
  r = Ok (py "Email with 1 attachment(s) sent successfully to a@x.com."
          ++ newline ++ py "Subject: S" ++ newline
          ++ py "Attached files: a.txt" ++ newline ++ py "Message ID: m2").
Proof. vm_compute. repeat split. eexists. reflexivity. Qed.

(** C6, as the code has it: the paths that are not regular files are
    collected as missing.  If a file was attached, the message is sent
    with one part per file found, and the missing paths are listed in a
    warning to the MCP context when the tool was given one (without a
    context they are not reported).  If there are paths and all are
    missing, the tool returns an error and does not send. *)
Theorem multiple_attachments_policy (env : Env) (to subject body : pystr)
    (paths : list pystr) (cc bcc html_body : option pystr) (ctx : bool)
    (w : World) (email : option pystr) :
  gmail_service env = Ok tt ->
  profile_email env = Ok email ->
  (forall p, p ∈ paths -> isfile env p = true ->
             exists c, read_file env p = Ok c) ->
  let attached := attached_paths env paths in
  let missing := missing_paths env paths in
  let message :=
    foldl attach
      (mixed_message to subject body cc bcc html_body (default [] email))
      (map (file_part env) attached) in
  let (r, w') :=
    send_email_with_multiple_attachments env to subject body paths
      cc bcc html_body ctx w in
  (attached <> [] ->
     calls w' = calls w ++ [GetProfile; SendMessage message] /\
     (ctx = true -> missing <> [] ->
        CtxWarning (missing_warning missing) ∈ ctx_events w') /\
     (ctx = false -> ctx_events w' = ctx_events w)) /\
  (attached = [] -> missing <> [] ->
     r = Ok none_found_error /\
     calls w' = calls w ++ [GetProfile] /\
     (ctx = true ->
        CtxWarning (missing_warning missing) ∈ ctx_events w')).
Proof.
  intros Hs Hp Hread attached missing message.
  unfold send_email_with_multiple_attachments.
  unfold try_except, bind at 1. rewrite notify_told.
  unfold bind at 1, lift at 1. rewrite Hs.
  unfold bind at 1, get_profile, bind at 1, record_call at 1.
  unfold bind at 1, lift at 1. rewrite Hp. unfold ret at 1.
  unfold bind at 1. rewrite attach_files_run by exact Hread.
  fold attached missing. simpl app. fold message.
  destruct missing as [|m0 missing'] eqn:Em;
    destruct attached as [|a0 attached'] eqn:Ea; cbn [app];
    rewrite ?(map_cons basename); change (map basename []) with (@nil pystr);
    repeat first [rewrite notify_told | progress unfold bind at 1];
    unfold send_message, ret, lift;
    repeat first [rewrite notify_told | progress unfold bind at 1];
    unfold record_call;
    try (destruct (send_reply env message) as [id|e];
         unfold report, logger_error;
         repeat first [rewrite notify_told | progress unfold bind at 1];
         unfold ret);
    destruct w as [mb cs evs lg], ctx; cbn [told calls ctx_events];
    rewrite <- ?app_assoc.
  all: split; [intros Hne|intros He Hne]; try done.
  all: repeat split; try done; try reflexivity.
  all: intros _; try intros _; rewrite ?elem_of_app, ?elem_of_cons;
    auto 10.
Qed.

Lemma multiple_attachments_policy_witness :
  (let (r, w') :=
     send_email_with_multiple_attachments example_env (py "a@x.com") (py "S")
       (py "B") [py "/tmp/a.txt"; py "/nope"] None None None true
       example_world in
   (exists m, calls w' = [GetProfile; SendMessage m]) /\
   CtxWarning (missing_warning [py "/nope"]) ∈ ctx_events w') /\
  (let (r, w') :=
     send_email_with_multiple_attachments example_env (py "a@x.com") (py "S")
       (py "B") [py "/nope"; py "/nope2"] None None None true
       example_world in
   r = Ok none_found_error /\ calls w' = [GetProfile]).
Proof.
  split.
  - pose proof (multiple_attachments_policy example_env (py "a@x.com") (py "S")
                  (py "B") [py "/tmp/a.txt"; py "/nope"] None None None true
                  example_world (Some (py "me@x.com")) eq_refl eq_refl) as H.
    cbv zeta in H.
    destruct (send_email_with_multiple_attachments _ _ _ _ _ _ _ _ _ _)
      as [r w'].
    destruct H as [H _].
    + intros p _ _. exists [104; 105]. reflexivity.
    + destruct H as (Hc & Hw & _).
      * vm_compute. intros H; discriminate H.
      * split; [eexists; exact Hc|].
        apply Hw; [reflexivity|]. vm_compute. intros H; discriminate H.
  - pose proof (multiple_attachments_policy example_env (py "a@x.com") (py "S")
                  (py "B") [py "/nope"; py "/nope2"] None None None true
                  example_world (Some (py "me@x.com")) eq_refl eq_refl) as H.
    cbv zeta in H.
    destruct (send_email_with_multiple_attachments _ _ _ _ _ _ _ _ _ _)
      as [r w'].
    destruct H as [_ H].
    + intros p _ _. exists [104; 105]. reflexivity.
    + destruct H as (Hr & Hc & _).
      * reflexivity.
      * vm_compute. intros H; discriminate H.
      * split; [exact Hr|exact Hc].
Defined.

(** ** [update_email_draft] *)

Lemma mime_headers_set_header (m : Mime) (k v : pystr) :
  mime_headers (set_header m k v) = mime_headers m ++ [(k, v)].
Proof. destruct m; reflexivity. Qed.

Lemma mime_headers_set_header_if (m : Mime) (k : pystr) (v : option pystr) :
  mime_headers (set_header_if m k v) = mime_headers m ++ optional_header k v.
Proof.
  unfold set_header_if, optional_header, truthy_opt.
  destruct v as [s|]; [destruct (truthy s)|]; simpl;
    rewrite ?mime_headers_set_header, ?app_nil_r; reflexivity.
Qed.

Lemma plain_body_set_header (m : Mime) (k v : pystr) :
  plain_body (set_header m k v) = plain_body m.
Proof. destruct m; reflexivity. Qed.

Lemma plain_body_set_header_if (m : Mime) (k : pystr) (v : option pystr) :
  plain_body (set_header_if m k v) = plain_body m.
Proof.
  unfold set_header_if. destruct v as [s|]; [destruct (truthy s)|];
    rewrite ?plain_body_set_header; reflexivity.
Qed.

Lemma new_mime_message_headers (plain html : option pystr) (m : Mime) :
  new_mime_message plain html = Some m -> mime_headers m = [].
Proof.
  unfold new_mime_message.
  destruct (truthy_opt html); [destruct (truthy_opt plain)|destruct plain];
    intros [= <-]; reflexivity.
Qed.

Lemma truthy_default (o : option pystr) :
  truthy_opt o = false -> default [] o = [].
Proof. destruct o as [[|]|]; done. Qed.

Lemma new_mime_message_plain (plain html : option pystr) (m : Mime) :
  new_mime_message plain html = Some m ->
  plain_body m = Some (default [] plain) /\
  (truthy_opt html = false -> m = MIMEText (default [] plain) (py "plain") []).
Proof.
  unfold new_mime_message.
  destruct (truthy_opt html).
  - destruct (truthy_opt plain) eqn:Ht; intros [= <-]; split; try done.
    rewrite (truthy_default plain Ht). reflexivity.
  - destruct plain; intros [= <-]; split; done.
Qed.

(** What [merge_draft] returns, in terms of the bodies it resolved. *)
Lemma merge_draft_inv (p : Payload) (to subject body cc bcc html_body : option pystr)
    (subj : pystr) (m : Mime) :
  merge_draft p to subject body cc bcc html_body = Ok (Some (subj, m)) ->
  exists plain html,
    final_bodies p body html_body = Ok (plain, html) /\
    subj = final_subject subject (existing_headers p) /\
    mime_headers m = draft_headers to subject cc bcc (existing_headers p) /\
    plain_body m = Some (default [] plain).
Proof.
  unfold merge_draft.
  destruct (final_bodies p body html_body) as [[plain html]|e]; [|discriminate].
  simpl. destruct (new_mime_message plain html) as [m0|] eqn:Em; [|discriminate].
  intros [= <- <-]. exists plain, html. repeat split.
  - rewrite !mime_headers_set_header_if, !mime_headers_set_header.
    rewrite (new_mime_message_headers _ _ _ Em).
    unfold draft_headers. rewrite <- !app_assoc. reflexivity.
  - rewrite !plain_body_set_header_if, !plain_body_set_header.
    apply (new_mime_message_plain _ _ _ Em).
Qed.

Lemma draft_headers_lookup (to subject cc bcc : option pystr)
    (hs : gmap pystr pystr) :
  let h := draft_headers to subject cc bcc hs in
  first_header (py "To") h = Some (final_to to hs) /\
  first_header (py "Subject") h = Some (final_subject subject hs) /\
  first_header (py "Cc") h =
    (if truthy_opt (final_cc cc hs) then final_cc cc hs else None) /\
  first_header (py "Bcc") h =
    (if truthy_opt (final_bcc bcc hs) then final_bcc bcc hs else None).
Proof.
  unfold draft_headers, optional_header.
  destruct (final_cc cc hs) as [c|], (final_bcc bcc hs) as [b|]; simpl;
    try destruct (truthy c); try destruct (truthy b); repeat split; reflexivity.
Qed.

(** The dictionary of the existing headers: the value at a key is that
    of the last header whose name is the key up to case. *)
Lemma existing_headers_lookup (p : Payload) (k v : pystr) :
  existing_headers p !! k = Some v <->
  exists pre h post,
    default [] (headers p) = pre ++ h :: post /\
    lower (name h) = k /\ value h = v /\
    Forall (fun h' => lower (name h') <> k) post.
Proof.
  unfold existing_headers. generalize (default [] (headers p)) as l.
  intros l. induction l as [|h l IH] using rev_ind.
  - simpl. rewrite lookup_empty. split; [discriminate|].
    intros (pre & h & post & H & _). destruct pre; discriminate.
  - rewrite foldl_app. simpl.
    destruct (decide (lower (name h) = k)) as [Hk|Hk].
    + rewrite Hk, lookup_insert_eq. split.
      * intros [= <-]. exists l, h, []. repeat split; [done|constructor].
      * intros (pre & h' & post & Heq & Hk' & Hv & Hpost).
        destruct post as [|x post _] using rev_ind.
        -- apply app_inj_tail in Heq as [_ <-]. congruence.
        -- rewrite app_comm_cons, app_assoc in Heq.
           apply app_inj_tail in Heq as [_ <-].
           apply Forall_app in Hpost as [_ Hx].
           apply Forall_cons in Hx as [Hx _]. contradiction.
    + rewrite lookup_insert_ne by exact Hk. rewrite IH. split.
      * intros (pre & h' & post & -> & Hk' & Hv & Hpost).
        exists pre, h', (post ++ [h]). rewrite <- app_assoc. repeat split; try done.
        apply Forall_app. split; [exact Hpost|]. constructor; [exact Hk|constructor].
      * intros (pre & h' & post & Heq & Hk' & Hv & Hpost).
        destruct post as [|x post _] using rev_ind.
        -- apply app_inj_tail in Heq as [_ <-]. contradiction.
        -- rewrite app_comm_cons, app_assoc in Heq.
           apply app_inj_tail in Heq as [-> <-].
           apply Forall_app in Hpost as [Hpost _].
           exists pre, h', post. repeat split; done.
Qed.

(** The address headers of the merged message. *)
Lemma merge_draft_headers (p : Payload)
    (to subject body cc bcc html_body : option pystr) (subj : pystr) (m : Mime) :
  merge_draft p to subject body cc bcc html_body = Ok (Some (subj, m)) ->
  let hs := existing_headers p in
  get_header m (py "To") = Some (final_to to hs) /\
  get_header m (py "Subject") = Some (final_subject subject hs) /\
  get_header m (py "Cc") =
    (if truthy_opt (final_cc cc hs) then final_cc cc hs else None) /\
  get_header m (py "Bcc") =
    (if truthy_opt (final_bcc bcc hs) then final_bcc bcc hs else None).
Proof.
  intros Em hs.
  destruct (merge_draft_inv _ _ _ _ _ _ _ _ _ Em)
    as (plain & html' & _ & _ & Hh & _).
  unfold get_header. rewrite Hh.
  exact (draft_headers_lookup to subject cc bcc (existing_headers p)).
Qed.

(** What [update_email_draft] asks of the API when the draft exists and
    the merge gives a message: it is that message, stamped with the
    address of the profile. *)
Lemma update_email_draft_run (env : Env) (draft_id : pystr)
    (to subject body cc bcc html_body : option pystr) (ctx : bool) (w : World)
    (d : Draft) (subj : pystr) (m : Mime) (email : option pystr) :
  gmail_service env = Ok tt ->
  draft_store env draft_id = Some d ->
  profile_email env = Ok email ->
  merge_draft (draft_payload d) to subject body cc bcc html_body
    = Ok (Some (subj, m)) ->
  let (r, w') :=
    update_email_draft env draft_id to subject body cc bcc html_body ctx w in
  calls w' = calls w ++ [GetDraft draft_id; GetProfile;
                         UpdateDraft draft_id
                           (set_header m (py "From") (default [] email))].
Proof.
  intros Hs Hd Hp Hm. destruct w as [mb cs evs lg].
  unfold update_email_draft. tool_unfold. rewrite Hs, Hd.
  destruct ctx; tool_unfold; rewrite Hm, Hp; tool_unfold;
    destruct (update_reply env draft_id _) as [id|e]; tool_unfold;
    try destruct (exn_kind_of e); tool_unfold;
    rewrite <- ?app_assoc; reflexivity.
Qed.

Lemma get_header_set_header (m : Mime) (k k' v v' : pystr) :
  get_header m k = Some v -> get_header (set_header m k' v') k = Some v.
Proof.
  unfold get_header. rewrite mime_headers_set_header, first_header_app.
  intros ->. reflexivity.
Qed.

(** C2: an update that supplies only the subject keeps the recipient and
    the plain body of the existing draft, in the message that
    [merge_draft] builds and in the one that the tool hands to the API;
    in general To, Subject, Cc and
    Bcc take the supplied value when there is one and the existing
    header (looked up without case) otherwise, with the empty string as
    default for To and Subject and no header for Cc and Bcc. *)
Theorem draft_merge_preserves_untouched (p : Payload) :
  (forall (a S P S2 : pystr) (html : option pystr),
     existing_headers p !! py "to" = Some a ->
     existing_headers p !! py "subject" = Some S ->
     existing_bodies p = Ok (Some P, html) ->
     exists m,
       merge_draft p None (Some S2) None None None None = Ok (Some (S2, m)) /\
       get_header m (py "To") = Some a /\
       get_header m (py "Subject") = Some S2 /\
       plain_body m = Some P) /\
  (forall (env : Env) (draft_id : pystr) (d : Draft) (ctx : bool) (w : World)
          (email : option pystr) (a S P S2 : pystr) (html : option pystr),
     gmail_service env = Ok tt ->
     draft_store env draft_id = Some d -> draft_payload d = p ->
     profile_email env = Ok email ->
     existing_headers p !! py "to" = Some a ->
     existing_headers p !! py "subject" = Some S ->
     existing_bodies p = Ok (Some P, html) ->
     exists m,
       calls (snd (update_email_draft env draft_id None (Some S2) None None
                     None None ctx w))
       = calls w ++ [GetDraft draft_id; GetProfile; UpdateDraft draft_id m] /\
       get_header m (py "To") = Some a /\
       get_header m (py "Subject") = Some S2 /\
       plain_body m = Some P) /\
  (forall (to subject body cc bcc html_body : option pystr) (subj : pystr)
          (m : Mime),
     merge_draft p to subject body cc bcc html_body = Ok (Some (subj, m)) ->
     let hs := existing_headers p in
     let final_cc := match cc with Some v => Some v | None => hs !! py "cc" end in
     let final_bcc :=
       match bcc with Some v => Some v | None => hs !! py "bcc" end in
     get_header m (py "To") =
       Some (match to with Some v => v | None => default [] (hs !! py "to") end) /\
     get_header m (py "Subject") =
       Some (match subject with
             | Some v => v
             | None => default [] (hs !! py "subject")
             end) /\
     get_header m (py "Cc") = (if truthy_opt final_cc then final_cc else None) /\
     get_header m (py "Bcc") =
       (if truthy_opt final_bcc then final_bcc else None)) /\
  (forall k v : pystr,
     existing_headers p !! k = Some v <->
     exists pre h post,
       default [] (headers p) = pre ++ h :: post /\
       lower (name h) = k /\ value h = v /\
       Forall (fun h' => lower (name h') <> k) post).
Proof.
  assert (forall (a S P S2 : pystr) (html : option pystr),
            existing_headers p !! py "to" = Some a ->
            existing_headers p !! py "subject" = Some S ->
            existing_bodies p = Ok (Some P, html) ->
            exists m,
              merge_draft p None (Some S2) None None None None
                = Ok (Some (S2, m)) /\
              get_header m (py "To") = Some a /\
              get_header m (py "Subject") = Some S2 /\
              plain_body m = Some P) as Hmerge.
  { intros a S P S2 html Hto Hsubj Hbodies.
    destruct (merge_draft p None (Some S2) None None None None)
      as [[[subj m]|]|e] eqn:Em.
    + destruct (merge_draft_inv _ _ _ _ _ _ _ _ _ Em)
        as (plain & html' & Hfb & -> & Hh & Hp).
      unfold final_bodies in Hfb. rewrite Hbodies in Hfb. simpl in Hfb.
      injection Hfb as <- <-.
      exists m. unfold get_header. rewrite Hh.
      destruct (draft_headers_lookup None (Some S2) None None
                  (existing_headers p)) as (-> & -> & _).
      unfold final_to. rewrite Hto. repeat split. exact Hp.
    + exfalso. unfold merge_draft, final_bodies in Em.
      rewrite Hbodies in Em. simpl in Em. unfold new_mime_message in Em.
      destruct (truthy_opt html); discriminate.
    + exfalso. unfold merge_draft, final_bodies in Em.
      rewrite Hbodies in Em. simpl in Em. unfold new_mime_message in Em.
      destruct (truthy_opt html); discriminate. }
  split; [exact Hmerge|split; [|split]].
  - intros env draft_id d ctx w email a S P S2 html Hs Hd Hdp Hp Hto Hsubj Hb.
    destruct (Hmerge a S P S2 html Hto Hsubj Hb) as (m & Hm & Ht & Hsj & Hpl).
    exists (set_header m (py "From") (default [] email)).
    rewrite <- Hdp in Hm.
    pose proof (update_email_draft_run env draft_id None (Some S2) None None
                  None None ctx w d S2 m email Hs Hd Hp Hm) as Hrun.
    destruct (update_email_draft env draft_id None (Some S2) None None None
                None ctx w) as [r w'].
    split; [exact Hrun|].
    rewrite plain_body_set_header.
    split; [|split]; try apply get_header_set_header; assumption.
  - intros to subject body cc bcc html_body subj m Em hs fcc fbcc.
    exact (merge_draft_headers p to subject body cc bcc html_body subj m Em).
  - apply existing_headers_lookup.
Qed.

Lemma draft_merge_preserves_untouched_witness :
  exists m,
    merge_draft example_draft None (Some (py "S2")) None None None None
      = Ok (Some (py "S2", m)) /\
    get_header m (py "To") = Some (py "a@x.com") /\
    get_header m (py "Subject") = Some (py "S2") /\
    plain_body m = Some (py "P").
Proof.
  apply (proj1 (draft_merge_preserves_untouched example_draft))
    with (S := py "S") (html := None); reflexivity.
Defined.

(** ** Clearing Cc *)

(** On a draft with a Cc header, an empty [cc] and an absent [cc] give
    different messages. *)
Lemma cc_cleared_counterexample :
  merge_draft example_draft None None None (Some []) None None
  <> merge_draft example_draft None None None None None None.
Proof. vm_compute. congruence. Qed.

(** C9, as the code has it: an empty [cc] removes the Cc header, an
    absent [cc] keeps the one of the existing draft; the two updates
    give the same message, and the tool does the same, when the
    existing draft has no Cc header or an empty one. *)
Theorem cc_empty_or_absent (p : Payload)
    (to subject body bcc html_body : option pystr) :
  (forall subj m,
     merge_draft p to subject body (Some []) bcc html_body = Ok (Some (subj, m)) ->
     get_header m (py "Cc") = None) /\
  (forall c subj m,
     existing_headers p !! py "cc" = Some c -> truthy c = true ->
     merge_draft p to subject body None bcc html_body = Ok (Some (subj, m)) ->
     get_header m (py "Cc") = Some c) /\
  (truthy_opt (existing_headers p !! py "cc") = false ->
   merge_draft p to subject body (Some []) bcc html_body
   = merge_draft p to subject body None bcc html_body) /\
  (truthy_opt (existing_headers p !! py "cc") = false ->
   forall (env : Env) (draft_id : pystr) (d : Draft) (ctx : bool) (w : World),
     draft_store env draft_id = Some d -> draft_payload d = p ->
     update_email_draft env draft_id to subject body (Some []) bcc html_body
       ctx w
     = update_email_draft env draft_id to subject body None bcc html_body
         ctx w).
Proof.
  assert (truthy_opt (existing_headers p !! py "cc") = false ->
          merge_draft p to subject body (Some []) bcc html_body
          = merge_draft p to subject body None bcc html_body) as Hsame.
  { intros Hf. unfold merge_draft.
    destruct (final_bodies p body html_body) as [[plain html]|e]; [|done].
    simpl. destruct (new_mime_message plain html) as [m0|]; [|done].
    unfold final_cc.
    destruct (existing_headers p !! py "cc") as [c|]; [|reflexivity].
    simpl in Hf. unfold set_header_if. rewrite Hf. reflexivity. }
  split; [|split; [|split; [exact Hsame|]]]; cycle 2.
  { intros Hf env draft_id d ctx w Hd Hdp. destruct w as [mb cs evs lg].
    unfold update_email_draft. tool_unfold.
    destruct (gmail_service env); destruct ctx; tool_unfold;
      rewrite ?Hd; tool_unfold; rewrite ?Hdp, ?(Hsame Hf); reflexivity. }
  - intros subj m Em.
    apply merge_draft_headers in Em as (_ & _ & -> & _). reflexivity.
  - intros c subj m Hc Ht Em.
    apply merge_draft_headers in Em as (_ & _ & -> & _).
    unfold final_cc. rewrite Hc. simpl. rewrite Ht. reflexivity.
Qed.

Lemma cc_empty_or_absent_witness :
  exists m,
    merge_draft example_draft None None None None None None
      = Ok (Some (py "S", m)) /\
    get_header m (py "Cc") = Some (py "c@x.com").
Proof.
  destruct (merge_draft example_draft None None None None None None)
    as [[[subj m]|]|e] eqn:Em; try discriminate Em.
  exists m. split.
  - vm_compute in Em. injection Em as <- _. reflexivity.
  - apply (proj1 (proj2 (cc_empty_or_absent example_draft None None None None
                           None))) with (subj := subj);
      [reflexivity|reflexivity|exact Em].
Defined.

(** ** Decoding of inline data *)

Lemma emit_ok (c : Z) (s : pystr) : Utf8.emit c (Ok s) = Ok (c :: s).
Proof. reflexivity. Qed.

(** With [errors='replace'] the decoder never raises; it agrees with the
    strict decoder wherever that one succeeds, and its text has U+FFFD
    wherever that one raises. *)
Lemma decode_replace_total_le (n : nat) (bs : pybytes) :
  (length bs <= n)%nat ->
  exists text, Utf8.decode Utf8.replace bs = Ok text /\
               (forall s, Utf8.decode Utf8.strict bs = Ok s -> text = s) /\
               (forall e, Utf8.decode Utf8.strict bs = Raise e -> 65533 ∈ text).
Proof.
  revert bs. induction n as [|n IH]; intros bs Hlen.
  - destruct bs; [|simpl in Hlen; lia]. exists []. split; [done|].
    simpl. split; congruence.
  - destruct bs as [|b0 r0];
      [exists []; split; [done|simpl; split; congruence]|].
    simpl in Hlen.
    assert (forall r, (length r <= length r0)%nat ->
              exists text, Utf8.decode Utf8.replace r = Ok text /\
                (forall s, Utf8.decode Utf8.strict r = Ok s -> text = s) /\
                (forall e, Utf8.decode Utf8.strict r = Raise e -> 65533 ∈ text))
      as IH' by (intros r Hr; apply IH; lia).
    clear IH.
    cbn [Utf8.decode].
    repeat match goal with
           | |- context [if ?c then _ else _] => destruct c
           | |- context [match ?l with [] => _ | _ :: _ => _ end] =>
               destruct l; simpl length in *
           end;
      unfold Utf8.on_error;
      repeat match goal with
             | |- context [Utf8.decode Utf8.replace ?r] =>
                 let t := fresh "t" in
                 let Ht := fresh "Ht" in
                 let Hs := fresh "Hs" in
                 let He := fresh "He" in
                 destruct (IH' r ltac:(simpl; lia)) as (t & Ht & Hs & He);
                 rewrite Ht; clear Ht
             end;
      rewrite ?emit_ok; eexists; (split; [reflexivity|]);
      (split; [intros s|intros e]); try discriminate;
      try (intros _; apply elem_of_cons; left; reflexivity);
      match goal with
      | Hs : forall s, Utf8.decode Utf8.strict ?r = Ok s -> _ = s,
        He : forall e, Utf8.decode Utf8.strict ?r = Raise e -> _
        |- Utf8.emit _ (Utf8.decode Utf8.strict ?r) = _ -> _ =>
          destruct (Utf8.decode Utf8.strict r) as [s'|e']; simpl;
          intros Heq;
          first [ discriminate Heq
                | injection Heq as <-; f_equal; apply Hs; reflexivity
                | apply elem_of_cons; right; apply (He e'); reflexivity ]
      end.
Qed.

Lemma decode_replace_total (bs : pybytes) :
  exists text, Utf8.decode Utf8.replace bs = Ok text /\
               (forall s, Utf8.decode Utf8.strict bs = Ok s -> text = s) /\
               (forall e, Utf8.decode Utf8.strict bs = Raise e -> 65533 ∈ text).
Proof. apply (decode_replace_total_le (length bs)). lia. Qed.

(** Inline data with a wrong padding: the base64 decoder raises. *)
Lemma malformed_base64_counterexample :
  let p := MkPayload (Some (py "text/plain")) None
             (Some {| data := Some (py "ab"); size := Some 1 |}) None None in
  inline_data p = Some (py "ab") /\
  get_body_and_attachments false p [] = Raise Base64.incorrect_padding.
Proof. vm_compute. split; reflexivity. Qed.

(** C8, as the code has it: a part with non-empty inline data is a leaf.
    Its filename and its parts are not looked at and the attachments are
    handed back unchanged.  If the data is base64 that the library
    accepts, the part yields the one pair of its type (text/plain by
    default) and its text, where the UTF-8 decoding never raises: it
    agrees with the strict decoding when that succeeds and puts U+FFFD
    for what cannot be decoded.  If the base64 is rejected, the
    exception of the library leaves the extractor. *)
Theorem inline_data_leaf (include_attachments : bool) (p : Payload)
    (attachments : list Attachment) (d : pystr) :
  inline_data p = Some d ->
  (forall raw, Base64.urlsafe_b64decode d = Ok raw ->
     exists text,
       Utf8.decode Utf8.replace raw = Ok text /\
       (forall s, Utf8.decode Utf8.strict raw = Ok s -> text = s) /\
       (forall e, Utf8.decode Utf8.strict raw = Raise e -> 65533 ∈ text) /\
       get_body_and_attachments include_attachments p attachments
       = Ok ([(default (py "text/plain") (mimeType p), text)], attachments)) /\
  (forall e, Base64.urlsafe_b64decode d = Raise e ->
     get_body_and_attachments include_attachments p attachments = Raise e) /\
  (forall fn ps hs,
     get_body_and_attachments include_attachments
       (MkPayload (mimeType p) fn (body p) ps hs) attachments
     = get_body_and_attachments include_attachments p attachments).
Proof.
  intros Hd. destruct p as [mt fn b ps hs].
  assert (forall fn' ps' hs',
            inline_data (MkPayload mt fn' b ps' hs') = Some d) as Hd'
    by (intros; exact Hd).
  split; [|split].
  - intros raw Hraw.
    destruct (decode_replace_total raw) as (text & Ht & Hs & He).
    exists text. repeat split; try assumption.
    cbn [get_body_and_attachments]. rewrite Hd, Hraw. simpl.
    rewrite Ht. reflexivity.
  - intros e He. cbn [get_body_and_attachments]. rewrite Hd, He. reflexivity.
  - intros fn' ps' hs'. cbn [get_body_and_attachments mimeType body].
    rewrite Hd, Hd'. reflexivity.
Qed.

Lemma inline_data_leaf_witness :
  let p := MkPayload (Some (py "text/html")) (Some (py "a.html"))
             (Some {| data := Some (py "4oKsPGI-_w=="); size := Some 7 |})
             (Some [MkPayload None None None None None]) None in
  get_body_and_attachments true p []
  = Ok ([(py "text/html", [8364; 60; 98; 62; 65533])], []).
Proof.
  intros p.
  destruct (proj1 (inline_data_leaf true p [] (py "4oKsPGI-_w==") eq_refl)
              [226; 130; 172; 60; 98; 62; 255] eq_refl)
    as (text & Ht & _ & _ & ->).
  vm_compute in Ht. injection Ht as <-. reflexivity.
Defined.

(** ** HTML to text *)

Lemma or_else_None_r {A} (o : option A) : Re.or_else o None = o.
Proof. destruct o; reflexivity. Qed.

Lemma strip_prefix_spec (l s rest : pystr) :
  Re.strip_prefix l s = Some rest <-> s = l ++ rest.
Proof.
  revert s. induction l as [|a l IH]; intros s; simpl.
  - split; congruence.
  - destruct s as [|b s]; [split; discriminate|].
    destruct (Z.eqb_spec a b) as [->|Hne].
    + rewrite IH. split; [intros ->; reflexivity|intros [= ->]; reflexivity].
    + split; [discriminate|intros [= <- _]; contradiction].
Qed.

Lemma sub_loop_skip (r : Re.regex) (repl s : pystr) (n : nat) :
  (n <= length s)%nat ->
  Re.sub_loop r repl s n = Re.sub_loop r repl (drop n s) 0.
Proof.
  revert n. induction s as [|c s IH]; intros n Hn.
  - simpl in Hn. assert (n = 0%nat) as -> by lia. reflexivity.
  - destruct n as [|n]; [reflexivity|].
    simpl in Hn. cbn [Re.sub_loop drop]. apply IH. lia.
Qed.

(** [re.sub] replaces, from left to right, what the expression matches. *)
Lemma sub_rewrites (r : Re.regex) (repl : pystr) :
  proper (Re.match_at r) ->
  forall s, rewrites (Re.match_at r) repl s (Re.sub r repl s).
Proof.
  intros Hproper s. unfold Re.sub.
  remember (length s) as n eqn:Hn. revert s Hn.
  induction n as [n IH] using lt_wf_ind. intros s ->.
  destruct s as [|c s].
  - cbn [Re.sub_loop]. destruct (Re.match_at r []) as [rest|] eqn:Em.
    + destruct (Hproper _ _ Em) as (pre & Hpre & Heq).
      destruct pre; [congruence|discriminate].
    + constructor.
  - cbn [Re.sub_loop]. destruct (Re.match_at r (c :: s)) as [rest|] eqn:Em.
    + destruct (Hproper _ _ Em) as (pre & Hpre & Heq).
      destruct pre as [|c' pre]; [congruence|].
      injection Heq as <- ->.
      replace (length (c :: pre ++ rest) - length rest)%nat
        with (S (length pre)) by (simpl; rewrite length_app; lia).
      rewrite sub_loop_skip by (rewrite length_app; lia).
      rewrite drop_app_length.
      apply (rewrites_token _ _ (c :: pre) rest); [done|exact Em|].
      apply (IH (length rest)); [simpl; rewrite length_app; lia|reflexivity].
    + apply rewrites_keep; [exact Em|].
      apply (IH (length s)); [simpl; lia|reflexivity].
Qed.

Lemma rewrites_functional (tok : pystr -> option pystr) (repl s o1 o2 : pystr) :
  rewrites tok repl s o1 -> rewrites tok repl s o2 -> o1 = o2.
Proof.
  intros H1. revert o2.
  induction H1 as [|pre rest out Hpre Htok _ IH|c s out Htok _ IH];
    intros o2 H2.
  - inversion H2 as [|pre' rest' out' Hpre' Htok' _ Heq|]; [reflexivity|].
    destruct pre'; [congruence|discriminate].
  - inversion H2 as [Heq|pre' rest' out' Hpre' Htok' H2' Heq
                    |c' s' out' Htok' _ Heq].
    + destruct pre; [congruence|discriminate].
    + rewrite Heq, Htok in Htok'. injection Htok' as <-.
      f_equal. apply IH. exact H2'.
    + rewrite Heq in Htok'. congruence.
  - inversion H2 as [|pre' rest' out' Hpre' Htok' _ Heq|c' s' out' _ H2'].
    + rewrite Heq in Htok'. congruence.
    + f_equal. apply IH. exact H2'.
Qed.

Lemma rewrites_ext (tok tok' : pystr -> option pystr) (repl s out : pystr) :
  (forall s, tok s = tok' s) ->
  rewrites tok repl s out -> rewrites tok' repl s out.
Proof.
  intros Hext. induction 1 as [|pre rest out Hpre Htok _ IH|c s out Htok _ IH].
  - constructor.
  - apply rewrites_token; [exact Hpre|rewrite <- Hext; exact Htok|exact IH].
  - apply rewrites_keep; [rewrite <- Hext; exact Htok|exact IH].
Qed.

(** Whatever a match leaves is a suffix of the string. *)
Lemma star_greedy_suffix (p : Z -> bool) (k : pystr -> option pystr)
    (s x : pystr) :
  Re.star_greedy p k s = Some x ->
  exists pre s', s = pre ++ s' /\ k s' = Some x.
Proof.
  induction s as [|c s IH]; simpl.
  - intros H. exists [], []. auto.
  - destruct (p c).
    + destruct (Re.star_greedy p k s) as [y|] eqn:E; simpl.
      * intros [= ->]. destruct (IH eq_refl) as (pre & s' & -> & Hk).
        exists (c :: pre), s'. auto.
      * intros H. exists [], (c :: s). auto.
    + intros H. exists [], (c :: s). auto.
Qed.

Lemma star_lazy_suffix (p : Z -> bool) (k : pystr -> option pystr)
    (s x : pystr) :
  Re.star_lazy p k s = Some x ->
  exists pre s', s = pre ++ s' /\ k s' = Some x.
Proof.
  induction s as [|c s IH]; simpl.
  - destruct (k []) eqn:E; simpl; [|discriminate].
    intros [= ->]. exists [], []. auto.
  - destruct (k (c :: s)) eqn:E; simpl.
    + intros [= ->]. exists [], (c :: s). auto.
    + destruct (p c); [|discriminate].
      intros H. destruct (IH H) as (pre & s' & -> & Hk).
      exists (c :: pre), s'. auto.
Qed.

Lemma exec_suffix (r : Re.regex) :
  forall (k : pystr -> option pystr) (s x : pystr),
    Re.exec r k s = Some x ->
    exists pre s', s = pre ++ s' /\ k s' = Some x.
Proof.
  induction r as [l|p|p|p|r IH|r1 IH1 r2 IH2|r1 IH1 r2 IH2]; intros k s x; simpl.
  - destruct (Re.strip_prefix l s) as [s'|] eqn:E; [|discriminate].
    apply strip_prefix_spec in E as ->. intros H. exists l, s'. auto.
  - destruct s as [|c s]; [discriminate|].
    destruct (p c); [|discriminate]. intros H. exists [c], s. auto.
  - apply star_greedy_suffix.
  - apply star_lazy_suffix.
  - destruct (Re.exec r k s) as [y|] eqn:E; simpl.
    + intros [= ->]. apply IH, E.
    + intros H. exists [], s. auto.
  - intros H. destruct (IH1 _ _ _ H) as (pre1 & s1 & -> & H1).
    destruct (IH2 _ _ _ H1) as (pre2 & s2 & -> & H2).
    exists (pre1 ++ pre2), s2. rewrite <- app_assoc. auto.
  - destruct (Re.exec r1 k s) as [y|] eqn:E; simpl.
    + intros [= ->]. apply IH1, E.
    + apply IH2.
Qed.

Lemma proper_lit_seq (c : Z) (l : pystr) (r : Re.regex) :
  proper (Re.match_at (Re.Seq (Re.Lit (c :: l)) r)).
Proof.
  intros s rest. unfold Re.match_at. cbn [Re.exec].
  destruct (Re.strip_prefix (c :: l) s) as [t|] eqn:E; [|discriminate].
  apply strip_prefix_spec in E as ->. intros H.
  destruct (exec_suffix _ _ _ _ H) as (pre & s' & -> & [= ->]).
  exists ((c :: l) ++ pre). split; [discriminate|].
  rewrite <- app_assoc. reflexivity.
Qed.

Lemma proper_lit (c : Z) (l : pystr) : proper (Re.match_at (Re.Lit (c :: l))).
Proof.
  intros s rest. unfold Re.match_at. cbn [Re.exec].
  destruct (Re.strip_prefix (c :: l) s) as [t|] eqn:E; [|discriminate].
  apply strip_prefix_spec in E as ->. intros [= ->].
  exists (c :: l). split; [discriminate|reflexivity].
Qed.

Lemma proper_alt (r1 r2 : Re.regex) :
  proper (Re.match_at r1) -> proper (Re.match_at r2) ->
  proper (Re.match_at (Re.Alt r1 r2)).
Proof.
  intros H1 H2 s rest. unfold Re.match_at in *. cbn [Re.exec].
  destruct (Re.exec r1 Some s) as [y|] eqn:E; simpl.
  - intros [= ->]. apply H1, E.
  - apply H2.
Qed.

Lemma match_lit (l s : pystr) :
  Re.match_at (Re.Lit l) s = Re.strip_prefix l s.
Proof.
  unfold Re.match_at. simpl. destruct (Re.strip_prefix l s); reflexivity.
Qed.

Lemma exec_lit_some (l s : pystr) :
  Re.exec (Re.Lit l) Some s = Re.strip_prefix l s.
Proof. apply match_lit. Qed.

(** [<.*?>] stops at the nearest [>] and does not cross a newline. *)
Lemma star_lazy_find_close (s : pystr) :
  Re.star_lazy Re.dot (Re.exec (Re.Lit (py ">")) Some) s = find_close s.
Proof.
  induction s as [|c s IH]; [reflexivity|].
  cbn [Re.star_lazy find_close]. rewrite exec_lit_some.
  change (py ">") with [62]. cbn [Re.strip_prefix].
  rewrite (Z.eqb_sym 62 c). destruct (c =? 62); [reflexivity|].
  unfold Re.dot. destruct (c =? 10); simpl; [reflexivity|exact IH].
Qed.

Lemma match_any_tag (s : pystr) : Re.match_at any_tag s = tag s.
Proof.
  unfold Re.match_at, any_tag, tag. cbn [Re.exec].
  destruct (Re.strip_prefix (py "<") s); [|reflexivity].
  apply star_lazy_find_close.
Qed.

Lemma strip_prefix_app (l1 l2 s : pystr) :
  Re.strip_prefix (l1 ++ l2) s =
  match Re.strip_prefix l1 s with
  | Some v => Re.strip_prefix l2 v
  | None => None
  end.
Proof.
  revert s. induction l1 as [|a l1 IH]; intros s; [reflexivity|].
  destruct s as [|b s]; [reflexivity|]. simpl.
  destruct (a =? b); [apply IH|reflexivity].
Qed.

(** A greedy [\s*] followed by something that cannot start with white
    space takes all the white space there is. *)
Lemma star_greedy_skip_spaces (k : pystr -> option pystr) (s : pystr) :
  (forall c u, Re.is_space c = true -> k (c :: u) = None) ->
  Re.star_greedy Re.is_space k s = k (skip_spaces s).
Proof.
  intros Hk. induction s as [|c s IH]; [reflexivity|].
  cbn [Re.star_greedy skip_spaces].
  destruct (Re.is_space c) eqn:E; [|reflexivity].
  rewrite IH, (Hk c s E). apply or_else_None_r.
Qed.

Lemma match_br_or_closing (s : pystr) :
  Re.match_at br_or_closing_tag s = br_or_closing s.
Proof.
  unfold Re.match_at, br_or_closing_tag, br_or_closing, br_tag, closing_tag.
  cbn [Re.exec]. f_equal.
  - destruct (Re.strip_prefix (py "<br") s) as [t|]; [|reflexivity].
    rewrite star_greedy_skip_spaces.
    + change (py "/>") with ([47] ++ [62]). rewrite strip_prefix_app.
      change (py "/") with [47]. change (py ">") with [62].
      destruct (Re.strip_prefix [47] (skip_spaces t)) as [v|];
        [|destruct (Re.strip_prefix [62] (skip_spaces t)); reflexivity].
      destruct (Re.strip_prefix [62] v);
        destruct (Re.strip_prefix [62] (skip_spaces t)); reflexivity.
    + intros c u Hc. change (py "/") with [47]. change (py ">") with [62].
      cbn [Re.strip_prefix].
      destruct (Z.eqb_spec 47 c) as [<-|_]; [discriminate Hc|].
      destruct (Z.eqb_spec 62 c) as [<-|_]; [discriminate Hc|]. reflexivity.
  - destruct (Re.strip_prefix (py "</") s) as [t|]; [|reflexivity].
    change (py "p>") with (py "p" ++ [62]).
    change (py "div>") with (py "div" ++ [62]).
    change (py ">") with [62].
    rewrite !strip_prefix_app.
    destruct (Re.strip_prefix (py "p") t) as [v|];
      [destruct (Re.strip_prefix [62] v)|];
      (destruct (Re.strip_prefix (py "div") t) as [v'|];
       [destruct (Re.strip_prefix [62] v')|]);
      (destruct (Re.strip_prefix (py "h") t) as [[|d v'']|];
       [| destruct (Re.is_digit d); [destruct (Re.strip_prefix [62] v'')|] |]);
      reflexivity.
Qed.

Lemma proper_any_tag : proper (Re.match_at any_tag).
Proof. apply (proper_lit_seq 60 []). Qed.

Lemma proper_br_or_closing : proper (Re.match_at br_or_closing_tag).
Proof.
  apply proper_alt.
  - apply (proper_lit_seq 60 [98; 114]).
  - apply (proper_lit_seq 60 [47]).
Qed.

Lemma sub_lit_rewrites (c : Z) (l repl s : pystr) :
  rewrites (Re.strip_prefix (c :: l)) repl s (Re.sub (Re.Lit (c :: l)) repl s).
Proof.
  apply (rewrites_ext (Re.match_at (Re.Lit (c :: l)))); [apply match_lit|].
  apply sub_rewrites, proper_lit.
Qed.

(** The lazy match keeps the text between two tags; a greedy match
    would remove it with them. *)
Lemma greedy_tag_counterexample :
  html_to_text (py "<b>x</b>") = py "x" /\
  html_to_text_greedy (py "<b>x</b>") = [] /\
  html_to_text (py "<b>x</b>") <> html_to_text_greedy (py "<b>x</b>").
Proof. vm_compute. repeat split; congruence. Qed.

(** C5, as the code has it: [<br>], [<br/>] and the closing tags of p,
    div and h followed by a digit become a newline; then every [<] up to
    the nearest [>] on the same line is removed (the match is lazy and
    does not cross a newline); then the entities nbsp, lt, gt and amp
    are replaced, in this order, amp last.  Each stage rewrites its
    input from left to right.  [<p>Hi</p>] becomes [Hi] and a newline,
    and [&amp;lt;] becomes [&lt;], not [<]. *)
Theorem html_to_text_stages (body : pystr) :
  (exists s1 s2 s3 s4 s5,
     rewrites br_or_closing newline body s1 /\
     rewrites tag [] s1 s2 /\
     rewrites (Re.strip_prefix (py "&nbsp;")) (py " ") s2 s3 /\
     rewrites (Re.strip_prefix (py "&lt;")) (py "<") s3 s4 /\
     rewrites (Re.strip_prefix (py "&gt;")) (py ">") s4 s5 /\
     rewrites (Re.strip_prefix (py "&amp;")) (py "&") s5 (html_to_text body)) /\
  html_to_text (py "<p>Hi</p>") = py "Hi" ++ newline /\
  html_to_text (py "&amp;lt;") = py "&lt;" /\
  html_to_text (py "<b>x</b>") = py "x" /\
  html_to_text (py "<a" ++ newline ++ py "b>") = py "<a" ++ newline ++ py "b>".
Proof.
  split; [|repeat split].
  unfold html_to_text.
  eexists _, _, _, _, _. repeat split.
  - apply (rewrites_ext (Re.match_at br_or_closing_tag));
      [apply match_br_or_closing|].
    apply sub_rewrites, proper_br_or_closing.
  - apply (rewrites_ext (Re.match_at any_tag)); [apply match_any_tag|].
    apply sub_rewrites, proper_any_tag.
  - apply (sub_lit_rewrites 38).
  - apply (sub_lit_rewrites 38).
  - apply (sub_lit_rewrites 38).
  - apply (sub_lit_rewrites 38).
Qed.

(** ** Round trip of a plain body *)

Ltac dlia := Z.div_mod_to_equations; lia.

Ltac bool_to_prop H :=
  repeat rewrite ?andb_true_iff, ?andb_false_iff, ?orb_true_iff,
    ?orb_false_iff, ?negb_true_iff, ?negb_false_iff, ?Z.leb_le, ?Z.leb_gt,
    ?Z.ltb_lt, ?Z.ltb_ge, ?Z.eqb_eq, ?Z.eqb_neq in H.

(** Decide the test at the head of the left-hand side. *)
Ltac head_if :=
  lazymatch goal with
  | |- (if ?c then _ else _) = _ =>
      let E := fresh "E" in
      destruct c eqn:E;
      [ try (exfalso; bool_to_prop E; dlia)
      | try (exfalso; bool_to_prop E; dlia) ]
  end.

(** Decoding the UTF-8 of a scalar value gives it back, and goes on
    with the bytes that follow. *)
Lemma decode_encode_cp (e : Utf8.errors) (c : Z) (bs : pybytes) :
  scalar_value c ->
  Utf8.decode e (Utf8.encode_cp c ++ bs) = Utf8.emit c (Utf8.decode e bs).
Proof.
  intros [Hr Hs]. unfold Utf8.encode_cp.
  destruct (Z.ltb_spec c 128); [|destruct (Z.ltb_spec c 2048);
                                  [|destruct (Z.ltb_spec c 65536)]];
    cbn [app Utf8.decode];
    unfold Utf8.second_of_3, Utf8.second_of_4, Utf8.is_cont;
    repeat head_if; f_equal; dlia.
Qed.

Lemma decode_encode (e : Utf8.errors) (s : pystr) :
  scalar_values s -> Utf8.decode e (Utf8.encode s) = Ok s.
Proof.
  unfold Utf8.encode. induction 1 as [|c s Hc _ IH]; [reflexivity|].
  cbn [map List.concat]. rewrite decode_encode_cp by exact Hc.
  rewrite IH. reflexivity.
Qed.

Lemma encode_cp_bytes (c : Z) :
  scalar_value c -> Forall is_byte (Utf8.encode_cp c) /\ Utf8.encode_cp c <> [].
Proof.
  intros [Hr Hs]. unfold Utf8.encode_cp, is_byte.
  repeat match goal with
         | |- context [?a <? ?b] => destruct (Z.ltb_spec a b)
         end;
    (split; [repeat constructor; dlia|discriminate]).
Qed.

Lemma encode_bytes (s : pystr) :
  scalar_values s ->
  Forall is_byte (Utf8.encode s) /\ (s <> [] -> Utf8.encode s <> []).
Proof.
  unfold Utf8.encode. induction 1 as [|c s Hc _ [IH _]].
  - split; [constructor|congruence].
  - destruct (encode_cp_bytes c Hc) as [Hb Hne]. cbn [map List.concat]. split.
    + apply Forall_app. split; assumption.
    + intros _ Heq. apply app_eq_nil in Heq as [Heq _]. contradiction.
Qed.

(** The base64 alphabet: every sextet has its character, which is ASCII,
    is not the pad, is unchanged by the two URL-safe translations taken
    together, and decodes to the sextet. *)
Lemma table_b2a_cases (v : Z) :
  0 <= v < 64 ->
  let c := Base64.table_b2a v in
  (c = 65 + v /\ 0 <= v < 26) \/ (c = 71 + v /\ 26 <= v < 52) \/
  (c = v - 4 /\ 52 <= v < 62) \/ (c = 43 /\ v = 62) \/ (c = 47 /\ v = 63).
Proof.
  intros Hv. unfold Base64.table_b2a.
  destruct (Z.ltb_spec v 26); [lia|].
  destruct (Z.ltb_spec v 52); [lia|].
  destruct (Z.ltb_spec v 62); [lia|].
  destruct (Z.eqb_spec v 62); lia.
Qed.

Lemma table_a2b_b2a (v : Z) :
  0 <= v < 64 -> Base64.table_a2b (Base64.table_b2a v) = Some v.
Proof.
  intros Hv.
  destruct (table_b2a_cases v Hv) as [[-> ?]|[[-> ?]|[[-> ?]|[[-> ->]|[-> ->]]]]];
    try reflexivity; unfold Base64.table_a2b; repeat head_if; f_equal; lia.
Qed.

Lemma table_b2a_char (v : Z) :
  0 <= v < 64 ->
  let c := Base64.table_b2a v in
  let u := Base64.urlsafe_encode_translation c in
  (c =? Base64.pad) = false /\
  (0 <=? u) && (u <? 128) = true /\
  Base64.urlsafe_decode_translation u = c.
Proof.
  intros Hv.
  destruct (table_b2a_cases v Hv) as [[-> ?]|[[-> ?]|[[-> ?]|[[-> ->]|[-> ->]]]]];
    try (repeat split; reflexivity);
    cbv zeta; unfold Base64.urlsafe_encode_translation,
      Base64.urlsafe_decode_translation, Base64.pad;
    repeat match goal with
           | |- context [?a =? ?b] => destruct (Z.eqb_spec a b); try lia
           end;
    repeat split; try reflexivity; apply andb_true_iff; lia.
Qed.

(** Sextets of bytes are sextets. *)
Lemma sextet_bounds (a b : Z) :
  is_byte a -> is_byte b ->
  0 <= a / 4 < 64 /\ 0 <= (a mod 4) * 16 + b / 16 < 64 /\
  0 <= (a mod 16) * 4 + b / 64 < 64 /\ 0 <= a mod 64 < 64 /\
  0 <= (a mod 4) * 16 < 64 /\ 0 <= (a mod 16) * 4 < 64.
Proof. unfold is_byte. intros Ha Hb. dlia. Qed.

Ltac a2b_char v :=
  let Hv := fresh "Hv" in
  assert (0 <= v < 64) as Hv by (unfold is_byte in *; dlia);
  cbn [Base64.a2b_loop];
  rewrite (proj1 (table_b2a_char v Hv)), (table_a2b_b2a v Hv);
  clear Hv.

(** One group of three bytes, encoded and decoded. *)
Lemma a2b_loop_group (a b c : Z) (rest : pystr) (out : pybytes) :
  is_byte a -> is_byte b -> is_byte c ->
  Base64.a2b_loop
    (Base64.table_b2a (a / 4) :: Base64.table_b2a ((a mod 4) * 16 + b / 16)
     :: Base64.table_b2a ((b mod 16) * 4 + c / 64)
     :: Base64.table_b2a (c mod 64) :: rest) 0 0 0 out
  = Base64.a2b_loop rest 0 0 0 (out ++ [a; b; c]).
Proof.
  intros Ha Hb Hc.
  a2b_char (a / 4). a2b_char ((a mod 4) * 16 + b / 16).
  a2b_char ((b mod 16) * 4 + c / 64). a2b_char (c mod 64).
  cbn [Z.eqb Pos.eqb]. rewrite <- !app_assoc. cbn [app].
  unfold is_byte in *. do 2 f_equal. f_equal; [dlia|]. f_equal; [dlia|].
  f_equal. dlia.
Qed.

Lemma a2b_loop_b2a (bs : pybytes) :
  Forall is_byte bs ->
  forall out, Base64.a2b_loop (Base64.b2a_base64 bs) 0 0 0 out = Ok (out ++ bs).
Proof.
  remember (length bs) as n eqn:Hn. revert bs Hn.
  induction n as [n IH] using lt_wf_ind. intros bs -> Hbs out.
  destruct bs as [|a [|b [|c rest]]].
  - rewrite app_nil_r. reflexivity.
  - apply Forall_cons in Hbs as [Ha _]. cbn [Base64.b2a_base64].
    a2b_char (a / 4). a2b_char ((a mod 4) * 16).
    cbn [Z.eqb Pos.eqb Base64.a2b_loop Base64.pad Z.leb Z.add Z.compare
         Pos.compare Pos.compare_cont Pos.add]. 
    unfold is_byte in *. do 3 f_equal. dlia.
  - apply Forall_cons in Hbs as [Ha Hbs]. apply Forall_cons in Hbs as [Hb _].
    cbn [Base64.b2a_base64].
    a2b_char (a / 4). a2b_char ((a mod 4) * 16 + b / 16).
    a2b_char ((b mod 16) * 4).
    cbn [Z.eqb Pos.eqb Base64.a2b_loop Base64.pad Z.leb Z.add Z.compare
         Pos.compare Pos.compare_cont Pos.add].
    rewrite <- !app_assoc. cbn [app].
    unfold is_byte in *. do 3 f_equal; [dlia|]. f_equal. dlia.
  - apply Forall_cons in Hbs as [Ha Hbs]. apply Forall_cons in Hbs as [Hb Hbs].
    apply Forall_cons in Hbs as [Hc Hbs].
    cbn [Base64.b2a_base64]. rewrite a2b_loop_group by assumption.
    rewrite (IH (length rest)) by (simpl; lia || reflexivity || assumption).
    rewrite <- app_assoc. reflexivity.
Qed.

Lemma list_ind3 {A} (P : list A -> Prop) :
  P [] -> (forall a, P [a]) -> (forall a b, P [a; b]) ->
  (forall a b c rest, P rest -> P (a :: b :: c :: rest)) ->
  forall l, P l.
Proof.
  intros H0 H1 H2 H3 l.
  remember (length l) as n eqn:Hn. revert l Hn.
  induction n as [n IH] using lt_wf_ind. intros l ->.
  destruct l as [|a [|b [|c rest]]]; auto.
  apply H3. apply (IH (length rest)); [simpl; lia|reflexivity].
Qed.

Lemma b64_char_translate (c : Z) :
  b64_char c ->
  let u := Base64.urlsafe_encode_translation c in
  (0 <=? u) && (u <? 128) = true /\ Base64.urlsafe_decode_translation u = c.
Proof.
  intros [->|(v & Hv & ->)]; [split; reflexivity|].
  apply (table_b2a_char v Hv).
Qed.

Lemma b2a_base64_chars (bs : pybytes) :
  Forall is_byte bs -> Forall b64_char (Base64.b2a_base64 bs).
Proof.
  assert (forall v, 0 <= v < 64 -> b64_char (Base64.table_b2a v)) as Hc
    by (intros v Hv; right; eauto).
  assert (b64_char Base64.pad) as Hp by (left; reflexivity).
  induction bs as [|a|a b|a b c rest IH] using list_ind3; intros Hbs;
    cbn [Base64.b2a_base64];
    repeat match goal with
           | H : Forall is_byte (_ :: _) |- _ =>
               apply Forall_cons in H as [? H]
           end;
    unfold is_byte in *;
    repeat (apply Forall_cons; split; [first [exact Hp|apply Hc; dlia]|]);
    auto.
Qed.

(** [urlsafe_b64decode] undoes [urlsafe_b64encode]. *)
Lemma urlsafe_b64_roundtrip (bs : pybytes) :
  Forall is_byte bs ->
  Base64.urlsafe_b64decode (Base64.urlsafe_b64encode bs) = Ok bs.
Proof.
  intros Hbs. unfold Base64.urlsafe_b64decode, Base64.urlsafe_b64encode.
  pose proof (b2a_base64_chars bs Hbs) as Hchars.
  assert (forallb (fun c => (0 <=? c) && (c <? 128))
            (map Base64.urlsafe_encode_translation (Base64.b2a_base64 bs))
          = true) as ->.
  { apply forallb_forall. intros u Hu. apply in_map_iff in Hu as (c & <- & Hc).
    rewrite Forall_forall in Hchars.
    apply b64_char_translate, Hchars, list_elem_of_In, Hc. }
  assert (map Base64.urlsafe_decode_translation
            (map Base64.urlsafe_encode_translation (Base64.b2a_base64 bs))
          = Base64.b2a_base64 bs) as ->.
  { induction Hchars as [|c l Hc _ IH]; [reflexivity|].
    cbn [map]. rewrite IH. f_equal. apply (b64_char_translate c Hc). }
  unfold Base64.a2b_base64. apply (a2b_loop_b2a bs Hbs []).
Qed.

Lemma urlsafe_b64encode_truthy (bs : pybytes) :
  bs <> [] -> truthy (Base64.urlsafe_b64encode bs) = true.
Proof.
  unfold Base64.urlsafe_b64encode.
  destruct bs as [|a [|b [|c rest]]]; [congruence|reflexivity..].
Qed.

(** The message of [send_email] when there is no HTML body. *)
Lemma send_email_message_plain (to subject body : pystr)
    (cc bcc html_body importance : option pystr) (from_email : pystr) :
  truthy_opt html_body = false ->
  exists hs,
    send_email_message to subject body cc bcc html_body importance from_email
    = MIMEMultipart (py "alternative") [MIMEText body (py "plain") []] hs.
Proof.
  intros Hh. unfold send_email_message, set_header_if.
  destruct html_body as [h|]; simpl in Hh; try rewrite Hh;
    destruct cc as [c|], bcc as [b|], importance as [imp|];
    try destruct (truthy c); try destruct (truthy b);
    try destruct (truthy imp);
    repeat case_bool_decide; eexists; reflexivity.
Qed.

(** An empty body is not read back: its part has no data, and the
    placeholder is shown. *)
Lemma empty_body_counterexample :
  decompose false
    (gmail_payload
       (send_email_message (py "a@x.com") (py "S") [] None None None None
          (py "me@x.com")))
  = Ok (no_body_placeholder, []) /\
  decompose false
    (gmail_payload
       (send_email_message (py "a@x.com") (py "S") [] None None None None
          (py "me@x.com")))
  <> Ok ([], []).
Proof. vm_compute. split; congruence. Qed.

(** *** Line endings in the serialised text *)

Lemma write_lines_crlf (r : pystr) :
  write_lines (13 :: 10 :: r) = 10 :: write_lines r.
Proof. reflexivity. Qed.

Lemma write_lines_cr (d : Z) (r : pystr) :
  d <> 10 -> write_lines (13 :: d :: r) = 10 :: write_lines (d :: r).
Proof.
  intros Hd. cbn [write_lines]. change (13 =? 13) with true. cbv iota.
  destruct (Z.eqb_spec d 10); [contradiction|reflexivity].
Qed.

Lemma write_lines_other (c : Z) (r : pystr) :
  c <> 13 -> write_lines (c :: r) = c :: write_lines r.
Proof.
  intros Hc. cbn [write_lines].
  destruct (Z.eqb_spec c 13); [contradiction|reflexivity].
Qed.

(** Induction along the cases of [write_lines]. *)
Lemma write_lines_ind (P : pystr -> Prop) :
  P [] -> P [13] ->
  (forall r, P r -> P (13 :: 10 :: r)) ->
  (forall d r, d <> 10 -> P (d :: r) -> P (13 :: d :: r)) ->
  (forall c r, c <> 13 -> P r -> P (c :: r)) ->
  forall s, P s.
Proof.
  intros H0 H1 Hcrlf Hcr Hc s.
  remember (length s) as n eqn:Hn. revert s Hn.
  induction n as [n IH] using lt_wf_ind. intros s ->.
  destruct s as [|c r]; [exact H0|].
  destruct (Z.eq_dec c 13) as [->|Hne].
  - destruct r as [|d r]; [exact H1|].
    destruct (Z.eq_dec d 10) as [->|Hd].
    + apply Hcrlf. apply (IH (length r)); [simpl; lia|reflexivity].
    + apply Hcr; [exact Hd|].
      apply (IH (length (d :: r))); [simpl; lia|reflexivity].
  - apply Hc; [exact Hne|].
    apply (IH (length r)); [simpl; lia|reflexivity].
Qed.

(** The generator writes no CR. *)
Lemma write_lines_no_cr (s : pystr) : 13 ∉ write_lines s.
Proof.
  induction s as [| |r IH|d r Hd IH|c r Hc IH] using write_lines_ind.
  - apply not_elem_of_nil.
  - intros H. apply list_elem_of_singleton in H. discriminate.
  - rewrite write_lines_crlf. apply not_elem_of_cons. split; [discriminate|exact IH].
  - rewrite (write_lines_cr d r Hd).
    apply not_elem_of_cons. split; [discriminate|exact IH].
  - rewrite (write_lines_other c r Hc).
    apply not_elem_of_cons. split; [congruence|exact IH].
Qed.

(** A text without CR is written as it is. *)
Lemma write_lines_id (s : pystr) : 13 ∉ s -> write_lines s = s.
Proof.
  induction s as [|c r IH]; [reflexivity|].
  intros H. apply not_elem_of_cons in H as [Hc Hr].
  rewrite write_lines_other by congruence. rewrite IH by exact Hr. reflexivity.
Qed.

Lemma write_lines_idem (s : pystr) : write_lines (write_lines s) = write_lines s.
Proof. apply write_lines_id, write_lines_no_cr. Qed.

Lemma write_lines_as_bytes_text (s : pystr) :
  write_lines (as_bytes_text s) = write_lines s.
Proof.
  unfold as_bytes_text. destruct (is_ascii s); [apply write_lines_idem|reflexivity].
Qed.

(** A CR in the text shows as an LF in what is written. *)
Lemma write_lines_cr_lf (s : pystr) : 13 ∈ s -> 10 ∈ write_lines s.
Proof.
  induction s as [| |r IH|d r Hd IH|c r Hc IH] using write_lines_ind.
  - intros H. inversion H.
  - intros _. apply elem_of_cons. left. reflexivity.
  - intros _. rewrite write_lines_crlf. apply elem_of_cons. left. reflexivity.
  - intros _. rewrite (write_lines_cr d r Hd). apply elem_of_cons. left. reflexivity.
  - intros H. apply elem_of_cons in H as [H|H]; [congruence|].
    rewrite (write_lines_other c r Hc). apply elem_of_cons. right. exact (IH H).
Qed.

Lemma write_lines_nil_inv (s : pystr) : write_lines s = [] -> s = [].
Proof.
  destruct s as [|c r]; [reflexivity|]. cbn [write_lines].
  destruct (c =? 13); discriminate.
Qed.

(** Two texts that are written alike are equal when one has no line
    break. *)
Lemma write_lines_eq_no_break (X Y : pystr) :
  13 ∉ X -> 10 ∉ X -> write_lines Y = write_lines X -> Y = X.
Proof.
  intros Hcr Hlf Heq. rewrite (write_lines_id X Hcr) in Heq.
  assert (13 ∉ Y) as HY.
  { intros H. apply write_lines_cr_lf in H. rewrite Heq in H. contradiction. }
  rewrite (write_lines_id Y HY) in Heq. exact Heq.
Qed.

(** *** Reading back what was sent *)

Lemma inline_data_of_body_data (p : Payload) (d : pystr) :
  body_data p = Some d -> inline_data p = (if truthy d then Some d else None).
Proof.
  unfold body_data, inline_data. destruct (body p) as [b|]; [|discriminate].
  simpl. intros ->. reflexivity.
Qed.

(** The text part of a payload that serves a non-empty text. *)
Lemma served_text_leaf (include_attachments : bool) (text subtype : pystr)
    (hs : list (pystr * pystr)) (q : Payload) (attachments : list Attachment) :
  text <> [] ->
  api_serves (MIMEText text subtype hs) q ->
  exists Y,
    write_lines Y = write_lines text /\
    get_body_and_attachments include_attachments q attachments
    = Ok ([(py "text/" ++ subtype, Y)], attachments).
Proof.
  intros Hne (Hmt & _ & _ & Y & HY & Hlines & Hdata).
  rewrite write_lines_as_bytes_text in Hlines.
  assert (Y <> []) as HYne.
  { intros ->. symmetry in Hlines. apply write_lines_nil_inv in Hlines.
    contradiction. }
  destruct (encode_bytes Y HY) as [Hbytes Hnonempty].
  destruct Hdata as [Hdata|[HYnil _]]; [|contradiction].
  exists Y. split; [exact Hlines|].
  apply inline_data_of_body_data in Hdata.
  rewrite (urlsafe_b64encode_truthy _ (Hnonempty HYne)) in Hdata.
  destruct q as [mt fn b ps h]. cbn [mimeType] in Hmt. subst mt.
  cbn [get_body_and_attachments]. rewrite Hdata.
  rewrite (urlsafe_b64_roundtrip _ Hbytes). cbn [rbind].
  rewrite (decode_encode _ _ HY). reflexivity.
Qed.

(** The text part of a payload that serves an empty text gives
    nothing. *)
Lemma served_empty_leaf (include_attachments : bool) (subtype : pystr)
    (hs : list (pystr * pystr)) (q : Payload) (attachments : list Attachment) :
  api_serves (MIMEText [] subtype hs) q ->
  get_body_and_attachments include_attachments q attachments
  = Ok ([], attachments).
Proof.
  intros (_ & Hfn & Hparts & Y & _ & Hlines & Hdata).
  apply write_lines_nil_inv in Hlines. subst Y.
  assert (inline_data q = None) as Hnone.
  { destruct Hdata as [Hdata|[_ H]]; [|exact H].
    apply inline_data_of_body_data in Hdata. exact Hdata. }
  destruct q as [mt fn b ps h]. cbn [filename parts] in *.
  cbn [get_body_and_attachments]. rewrite Hnone, Hfn.
  destruct Hparts as [->| ->]; reflexivity.
Qed.

(** Whatever payload serves a message of [send_email] with an empty
    body, the placeholder is shown for it. *)
Lemma empty_body_placeholder (to subject : pystr)
    (cc bcc html_body importance : option pystr) (from_email : pystr)
    (include_attachments : bool) (p : Payload) :
  truthy_opt html_body = false ->
  api_serves
    (send_email_message to subject [] cc bcc html_body importance from_email)
    p ->
  decompose include_attachments p = Ok (no_body_placeholder, []).
Proof.
  intros Hh.
  destruct (send_email_message_plain to subject [] cc bcc html_body
              importance from_email Hh) as [hs ->].
  intros (_ & Hdata & Hfn & qs & Hparts & Hall).
  destruct qs as [|q [|q' qs]];
    [destruct Hall| |destruct Hall as [_ []]].
  destruct Hall as [Hq _].
  destruct p as [mt fn b ps h]. cbn [filename parts] in *. subst ps.
  unfold decompose. cbn [get_body_and_attachments]. rewrite Hdata, Hfn.
  rewrite (served_empty_leaf include_attachments _ _ q [] Hq). reflexivity.
Qed.

(** C1, as the code has it: take a message of [send_email] with a
    non-empty plain body X of Unicode scalar values and no HTML body
    (this tool never attaches a file), serialised by [as_bytes], and any
    payload tree that serves it.  Its decomposition has no attachment
    and a body text that is X up to the line endings, and X itself when
    X has neither CR nor LF.  ([as_bytes] writes the CR and CR LF of an
    ASCII body as LF, and the line endings the API serves are its own.)
    An empty body does not come back: its part yields nothing and the
    placeholder is shown. *)
Theorem plain_body_roundtrip (to subject X : pystr)
    (cc bcc html_body importance : option pystr) (from_email : pystr)
    (include_attachments : bool) (p : Payload) :
  scalar_values X -> X <> [] -> truthy_opt html_body = false ->
  api_serves
    (send_email_message to subject X cc bcc html_body importance from_email)
    p ->
  exists Y,
    decompose include_attachments p = Ok (Y, []) /\
    write_lines Y = write_lines X /\
    (13 ∉ X -> 10 ∉ X -> Y = X).
Proof.
  intros Hsv Hne Hh.
  destruct (send_email_message_plain to subject X cc bcc html_body
              importance from_email Hh) as [hs ->].
  intros (_ & Hdata & Hfn & qs & Hparts & Hall).
  destruct qs as [|q [|q' qs]];
    [destruct Hall| |destruct Hall as [_ []]].
  destruct Hall as [Hq _].
  destruct (served_text_leaf include_attachments X (py "plain") [] q [] Hne Hq)
    as (Y & Hlines & Hleaf).
  exists Y. split; [|split; [exact Hlines|]].
  - destruct p as [mt fn b ps h]. cbn [filename parts] in *. subst ps.
    unfold decompose. cbn [get_body_and_attachments]. rewrite Hdata, Hfn.
    rewrite Hleaf. cbn [rbind app]. unfold resolve_body.
    rewrite filter_cons_True by reflexivity. reflexivity.
  - intros Hcr Hlf. apply (write_lines_eq_no_break X Y Hcr Hlf Hlines).
Qed.

Lemma plain_body_roundtrip_witness :
  decompose true
    (gmail_payload
       (send_email_message (py "a@x.com") (py "S") [72; 233; 8364; 128512]
          None None None None (py "me@x.com")))
  = Ok ([72; 233; 8364; 128512], []).
Proof.
  destruct (plain_body_roundtrip (py "a@x.com") (py "S")
              [72; 233; 8364; 128512] None None None None (py "me@x.com") true
              (gmail_payload
                 (send_email_message (py "a@x.com") (py "S")
                    [72; 233; 8364; 128512] None None None None
                    (py "me@x.com"))))
    as (Y & Hd & _ & HY).
  - repeat constructor; lia.
  - discriminate.
  - reflexivity.
  - repeat split; try reflexivity.
    exists [gmail_payload (MIMEText [72; 233; 8364; 128512] (py "plain") [])].
    split; [reflexivity|]. split; [|exact I].
    repeat split; try reflexivity; [left; reflexivity|].
    exists [72; 233; 8364; 128512].
    split; [repeat constructor; lia|]. split; [reflexivity|left; reflexivity].
  - rewrite Hd. rewrite HY; [reflexivity| |].
    + intros H. repeat (apply elem_of_cons in H as [H|H]; [discriminate H|]).
      inversion H.
    + intros H. repeat (apply elem_of_cons in H as [H|H]; [discriminate H|]).
      inversion H.
Defined.

(** * Further properties of the code *)

(** ** The extractor of [read_email] *)

(** Induction on a payload through its parts. *)
Lemma Payload_parts_ind (P : Payload -> Prop) :
  (forall mt fn b ps hs,
     (forall qs, ps = Some qs -> Forall P qs) -> P (MkPayload mt fn b ps hs)) ->
  forall p, P p.
Proof.
  intros H. fix IH 1. intros [mt fn b [qs|] hs]; apply H.
  - intros qs' [= <-].
    induction qs as [|q qs IHqs]; constructor; [apply IH|exact IHqs].
  - intros qs' [=].
Qed.

(** The loop over the parts (lines 906-911), for parts that hand the
    attachments on as [get_body_and_attachments] does at [q]. *)
Lemma parts_loop_attachments (include_attachments : bool) (qs : list Payload) :
  Forall (fun q => forall atts,
            get_body_and_attachments include_attachments q atts =
            match get_body_and_attachments include_attachments q [] with
            | Ok (frs, new) => Ok (frs, atts ++ new)
            | Raise e => Raise e
            end) qs ->
  forall all_parts atts,
    (fix loop (ps : list Payload) (all_parts : list (pystr * pystr))
         (attachments : list Attachment) :=
       match ps with
       | [] => Ok (all_parts, attachments)
       | part :: ps' =>
           match get_body_and_attachments include_attachments part
                   attachments with
           | Ok (part_bodies, updated_attachments) =>
               loop ps' (all_parts ++ part_bodies) updated_attachments
           | Raise e => Raise e
           end
       end) qs all_parts atts
    = match (fix loop (ps : list Payload) (all_parts : list (pystr * pystr))
                 (attachments : list Attachment) :=
               match ps with
               | [] => Ok (all_parts, attachments)
               | part :: ps' =>
                   match get_body_and_attachments include_attachments part
                           attachments with
                   | Ok (part_bodies, updated_attachments) =>
                       loop ps' (all_parts ++ part_bodies) updated_attachments
                   | Raise e => Raise e
                   end
               end) qs all_parts [] with
      | Ok (frs, new) => Ok (frs, atts ++ new)
      | Raise e => Raise e
      end.
Proof.
  induction 1 as [|q qs Hq _ IH]; intros all_parts atts.
  - rewrite app_nil_r. reflexivity.
  - rewrite Hq.
    destruct (get_body_and_attachments include_attachments q [])
      as [[b nq]|e]; [|reflexivity].
    cbv beta iota. rewrite (IH _ (atts ++ nq)), (IH _ ([] ++ nq)).
    cbn [app].
    match goal with
    | |- context [match ?x with Ok _ => _ | Raise _ => _ end] =>
        destruct x as [[frs new]|e]
    end; [rewrite app_assoc|]; reflexivity.
Qed.

Lemma get_body_and_attachments_from_nil (include_attachments : bool)
    (p : Payload) :
  forall atts,
    get_body_and_attachments include_attachments p atts =
    match get_body_and_attachments include_attachments p [] with
    | Ok (frs, new) => Ok (frs, atts ++ new)
    | Raise e => Raise e
    end.
Proof.
  induction p as [mt fn b ps hs IH] using Payload_parts_ind. intros atts.
  cbn [get_body_and_attachments].
  destruct (inline_data (MkPayload mt fn b ps hs)) as [d|].
  - destruct (Base64.urlsafe_b64decode d) as [raw|e]; [|reflexivity].
    cbn [rbind].
    destruct (Utf8.decode Utf8.replace raw) as [s|e]; [|reflexivity].
    cbn [rbind]. rewrite app_nil_r. reflexivity.
  - destruct (truthy_opt fn).
    + destruct include_attachments; [|rewrite app_nil_r; reflexivity].
      destruct b; reflexivity.
    + destruct ps as [qs|]; [|rewrite app_nil_r; reflexivity].
      apply parts_loop_attachments. apply (IH qs eq_refl).
Qed.



(** The loop over the parts without the attachments. *)
Lemma parts_loop_unasked (qs : list Payload) :
  Forall (fun q => forall a a' frs atts',
            get_body_and_attachments true q a = Ok (frs, atts') ->
            get_body_and_attachments false q a' = Ok (frs, a')) qs ->
  forall all_parts a a' frs atts',
    (fix loop (ps : list Payload) (all_parts : list (pystr * pystr))
         (attachments : list Attachment) :=
       match ps with
       | [] => Ok (all_parts, attachments)
       | part :: ps' =>
           match get_body_and_attachments true part attachments with
           | Ok (part_bodies, updated_attachments) =>
               loop ps' (all_parts ++ part_bodies) updated_attachments
           | Raise e => Raise e
           end
       end) qs all_parts a = Ok (frs, atts') ->
    (fix loop (ps : list Payload) (all_parts : list (pystr * pystr))
         (attachments : list Attachment) :=
       match ps with
       | [] => Ok (all_parts, attachments)
       | part :: ps' =>
           match get_body_and_attachments false part attachments with
           | Ok (part_bodies, updated_attachments) =>
               loop ps' (all_parts ++ part_bodies) updated_attachments
           | Raise e => Raise e
           end
       end) qs all_parts a' = Ok (frs, a').
Proof.
  induction 1 as [|q qs Hq _ IH]; intros all_parts a a' frs atts' Hrun.
  - injection Hrun as <- _. reflexivity.
  - destruct (get_body_and_attachments true q a) as [[b a1]|e] eqn:Eq;
      [|discriminate Hrun].
    rewrite (Hq a a' b a1 Eq). exact (IH _ _ a' _ _ Hrun).
Qed.

Lemma get_body_and_attachments_unasked (p : Payload) :
  forall a a' frs atts',
    get_body_and_attachments true p a = Ok (frs, atts') ->
    get_body_and_attachments false p a' = Ok (frs, a').
Proof.
  induction p as [mt fn b ps hs IH] using Payload_parts_ind.
  intros a a' frs atts'. cbn [get_body_and_attachments].
  destruct (inline_data (MkPayload mt fn b ps hs)) as [d|].
  - destruct (Base64.urlsafe_b64decode d) as [raw|e]; [|discriminate].
    cbn [rbind].
    destruct (Utf8.decode Utf8.replace raw) as [s|e]; [|discriminate].
    cbn [rbind]. intros [= <- _]. reflexivity.
  - destruct (truthy_opt fn).
    + destruct b; [|discriminate]. intros [= <- _]. reflexivity.
    + destruct ps as [qs|]; [|intros [= <- _]; reflexivity].
      apply parts_loop_unasked. apply (IH qs eq_refl).
Qed.



(** The loop over the parts, for a reader that did not ask for the
    attachments. *)
Lemma parts_loop_false (qs : list Payload) :
  Forall (fun q => forall a frs atts',
            get_body_and_attachments false q a = Ok (frs, atts') ->
            atts' = a) qs ->
  forall all_parts a frs atts',
    (fix loop (ps : list Payload) (all_parts : list (pystr * pystr))
         (attachments : list Attachment) :=
       match ps with
       | [] => Ok (all_parts, attachments)
       | part :: ps' =>
           match get_body_and_attachments false part attachments with
           | Ok (part_bodies, updated_attachments) =>
               loop ps' (all_parts ++ part_bodies) updated_attachments
           | Raise e => Raise e
           end
       end) qs all_parts a = Ok (frs, atts') ->
    atts' = a.
Proof.
  induction 1 as [|q qs Hq _ IH]; intros all_parts a frs atts' Hrun.
  - injection Hrun as _ <-. reflexivity.
  - destruct (get_body_and_attachments false q a) as [[b a1]|e] eqn:Eq;
      [|discriminate Hrun].
    rewrite <- (Hq a b a1 Eq). exact (IH _ _ _ _ Hrun).
Qed.





(** ** Text without markup *)

(** [re.sub] leaves a string alone when every match of the expression
    starts with a character that the string does not have. *)
Lemma sub_without_first (r : Re.regex) (repl : pystr) (c0 : Z) (s : pystr) :
  (forall c u, c <> c0 -> Re.match_at r (c :: u) = None) ->
  Re.match_at r [] = None ->
  c0 ∉ s -> Re.sub r repl s = s.
Proof.
  intros Hfirst Hnil. unfold Re.sub.
  induction s as [|c s IH]; intros Hs.
  - cbn [Re.sub_loop]. rewrite Hnil. reflexivity.
  - apply not_elem_of_cons in Hs as [Hc Hs].
    cbn [Re.sub_loop]. rewrite (Hfirst c s) by congruence.
    rewrite (IH Hs). reflexivity.
Qed.

Lemma strip_prefix_other (c0 c : Z) (l u : pystr) :
  c <> c0 -> Re.strip_prefix (c0 :: l) (c :: u) = None.
Proof.
  intros Hc. cbn [Re.strip_prefix].
  destruct (Z.eqb_spec c0 c); [congruence|reflexivity].
Qed.

Lemma sub_lit_without_first (c0 : Z) (l repl s : pystr) :
  c0 ∉ s -> Re.sub (Re.Lit (c0 :: l)) repl s = s.
Proof.
  apply sub_without_first.
  - intros c u Hc. rewrite match_lit. apply strip_prefix_other, Hc.
  - reflexivity.
Qed.



(** ** [update_email_draft]: the bodies *)

(** The headers are added to a message without touching its content. *)
Lemma merge_headers_text (t s : pystr) (h0 : list (pystr * pystr))
    (k1 v1 k2 v2 k3 k4 : pystr) (o3 o4 : option pystr) :
  exists hs,
    set_header_if
      (set_header_if (set_header (set_header (MIMEText t s h0) k1 v1) k2 v2)
         k3 o3) k4 o4
    = MIMEText t s hs.
Proof.
  destruct o3 as [c|]; [destruct c|]; (destruct o4 as [d|]; [destruct d|]);
    eexists; reflexivity.
Qed.

Lemma merge_headers_multipart (s : pystr) (ps : list Mime)
    (h0 : list (pystr * pystr)) (k1 v1 k2 v2 k3 k4 : pystr)
    (o3 o4 : option pystr) :
  exists hs,
    set_header_if
      (set_header_if
         (set_header (set_header (MIMEMultipart s ps h0) k1 v1) k2 v2)
         k3 o3) k4 o4
    = MIMEMultipart s ps hs.
Proof.
  destruct o3 as [c|]; [destruct c|]; (destruct o4 as [d|]; [destruct d|]);
    eexists; reflexivity.
Qed.







(** ** [mark_as_read]: a message that is not there *)



(** ** Failures of the tools *)

Lemma report_answers (ctx : bool) (msg : pystr) (w : World) :
  fst (report ctx msg w) = Ok msg.
Proof. destruct w, ctx; reflexivity. Qed.

(** A [try] whose handler answers always answers. *)
Lemma try_except_answers {A} (m : M A) (h : exn -> M A) (w : World) :
  (forall e w', exists a, fst (h e w') = Ok a) ->
  exists a, fst (try_except m h w) = Ok a.
Proof.
  intros Hh. unfold try_except. destruct (m w) as [[a|e] w'].
  - exists a. reflexivity.
  - apply Hh.
Qed.


(** ** [send_email]: what is sent, and what is not *)

(** Split an outcome into its cases and drop those that the replies of
    the environment exclude. *)
Ltac outcome_cases :=
  repeat match goal with
         | |- _ /\ _ => split
         | |- forall _, _ => intro
         | |- let _ := _ in _ => intro
         | x := _ |- _ => subst x
         | H : Ok _ = Ok _ |- _ => injection H as H; try subst
         | H : Raise _ = Raise _ |- _ => injection H as H; try subst
         | H : Raise _ = Ok _ |- _ => discriminate H
         | H : Ok _ = Raise _ |- _ => discriminate H
         | H : true = false |- _ => discriminate H
         | H : false = true |- _ => discriminate H
         | H1 : ?x = _, H2 : ?x = _ |- _ => rewrite H1 in H2
         end.





(** ** [mark_as_unread] *)

Lemma already_unread_spec (msg : Message) :
  already_unread msg = true <->
  exists ls, labelIds msg = Some ls /\ py "UNREAD" ∈ ls.
Proof.
  unfold already_unread. destruct (labelIds msg) as [ls|].
  - rewrite bool_decide_eq_true. split; [eauto|]. intros (? & [= <-] & ?). done.
  - split; [discriminate|]. intros (? & [=] & _).
Qed.



(** ** [send_email_with_attachment] *)



(** ** The subject of a message *)

Lemma subject_header_app (pre post : list Header) :
  Forall (fun h' => lower (name h') <> py "subject") pre ->
  subject_header (pre ++ post) = subject_header post.
Proof.
  induction 1 as [|h pre Hh _ IH]; [reflexivity|].
  cbn [app subject_header]. rewrite bool_decide_eq_false_2 by exact Hh.
  exact IH.
Qed.



(** ** [format_size] *)

Lemma two_digits_length (k : Z) : 0 <= k < 100 -> length (two_digits k) = 2%nat.
Proof.
  intros Hk.
  assert (Forall (fun k => length (two_digits k) = 2%nat) (seqZ 0 100)) as Hall.
  { apply Forall_forall. intros x Hx.
    apply (bool_decide_unpack _).
    revert x Hx. apply Forall_forall.
    apply (bool_decide_unpack _). vm_compute. exact I. }
  rewrite Forall_forall in Hall. apply Hall, elem_of_seqZ. lia.
Qed.



(** ** [update_email_draft]: bodies below the first level *)

Lemma scan_parts_no_data (qs : list Payload) (plain html : option pystr) :
  Forall (fun q => body_data q = None) qs ->
  scan_parts qs plain html = Ok (plain, html).
Proof.
  intros Hall. revert plain html.
  induction Hall as [|q qs Hq _ IH]; intros plain html; [reflexivity|].
  cbn [scan_parts]. unfold take_part. rewrite Hq.
  destruct plain, html; cbn [rbind]; apply IH.
Qed.



(** ** Reading back a message with an HTML body *)

(** The message of [send_email] when there is an HTML body. *)
Lemma send_email_message_html (to subject body html : pystr)
    (cc bcc importance : option pystr) (from_email : pystr) :
  truthy html = true ->
  exists hs,
    send_email_message to subject body cc bcc (Some html) importance from_email
    = MIMEMultipart (py "alternative")
        [MIMEText body (py "plain") []; MIMEText html (py "html") []] hs.
Proof.
  intros Hh. unfold send_email_message, set_header_if. rewrite Hh.
  destruct cc as [c|], bcc as [b|], importance as [imp|];
    try destruct (truthy c); try destruct (truthy b);
    try destruct (truthy imp);
    repeat case_bool_decide; eexists; reflexivity.
Qed.



(** ** [batch_delete_emails] *)

Lemma delete_loop_tally (api : Batch.Api) (ctx : bool) (total : Z)
    (ids : list pystr) :
  forall i s evs,
    let (s', evs') := Batch.delete_loop api ctx total i ids s evs in
    Batch.deleted evs' = Batch.deleted evs ++ ids /\
    s' + Z.of_nat (length (Batch.warnings evs'))
      = s + Z.of_nat (length (Batch.warnings evs))
        + Z.of_nat (length ids) /\
    s <= s' /\
    Batch.errors evs' = Batch.errors evs /\
    ((forall h id, id ∈ ids -> Batch.delete_message api h id = Ok tt) ->
     s' = s + Z.of_nat (length ids)) /\
    ((forall h id, id ∈ ids ->
        exists e, Batch.delete_message api h id = Raise e) ->
     s' = s).
Proof.
  induction ids as [|id ids IH]; intros i s evs.
  - cbn [Batch.delete_loop length]. rewrite app_nil_r.
    repeat split; intros; lia.
  - cbn [Batch.delete_loop].
    set (evs1 := if ctx then evs ++ [Batch.ReportProgress i total] else evs).
    assert (Batch.deleted evs1 = Batch.deleted evs /\
            Batch.warnings evs1 = Batch.warnings evs /\
            Batch.errors evs1 = Batch.errors evs) as (Hd1 & Hw1 & He1).
    { unfold evs1, Batch.deleted, Batch.warnings, Batch.errors.
      destruct ctx; rewrite ?omap_app, ?app_nil_r; repeat split; reflexivity. }
    destruct (Batch.delete_message api evs1 id) as [[]|e] eqn:Hdel.
    + specialize (IH (i + 1) (s + 1) (evs1 ++ [Batch.DeleteMessage id])).
      destruct (Batch.delete_loop api ctx total (i + 1) ids (s + 1)
                  (evs1 ++ [Batch.DeleteMessage id])) as [s' evs'].
      destruct IH as (Hd & Hc & Hs & He & Hok & Hbad).
      unfold Batch.deleted, Batch.warnings, Batch.errors in *.
      rewrite omap_app in Hd, Hc, He. cbn [omap list_omap length] in Hd, Hc, He.
      rewrite ?app_nil_r in *. cbn [length].
      rewrite Hd1 in Hd. rewrite Hw1 in Hc. rewrite He1 in He.
      repeat split.
      * rewrite Hd, <- app_assoc. reflexivity.
      * lia.
      * lia.
      * exact He.
      * intros Hall. rewrite Hok; [lia|].
        intros h id' Hin. apply Hall. apply elem_of_cons. right. exact Hin.
      * intros Hall.
        destruct (Hall evs1 id ltac:(apply elem_of_cons; left; reflexivity))
          as [e He']. congruence.
    + specialize (IH (i + 1) s
                    (evs1 ++ [Batch.DeleteMessage id;
                              Batch.LogWarning
                                (py "Error deleting message " ++ id
                                 ++ py ": " ++ exn_str e)])).
      destruct (Batch.delete_loop api ctx total (i + 1) ids s
                  (evs1 ++ [Batch.DeleteMessage id;
                            Batch.LogWarning
                              (py "Error deleting message " ++ id
                               ++ py ": " ++ exn_str e)])) as [s' evs'].
      destruct IH as (Hd & Hc & Hs & He & Hok & Hbad).
      unfold Batch.deleted, Batch.warnings, Batch.errors in *.
      rewrite omap_app in Hd, Hc, He. cbn [omap list_omap length] in Hd, Hc, He.
      rewrite ?app_nil_r in *. cbn [length].
      rewrite Hd1 in Hd. rewrite Hw1 in Hc. rewrite He1 in He.
      rewrite length_app in Hc. cbn [length] in Hc.
      repeat split.
      * rewrite Hd, <- app_assoc. reflexivity.
      * lia.
      * lia.
      * exact He.
      * intros Hall.
        rewrite (Hall evs1 id ltac:(apply elem_of_cons; left; reflexivity))
          in Hdel. discriminate Hdel.
      * intros Hall. apply Hbad.
        intros h id' Hin. apply Hall. apply elem_of_cons. right. exact Hin.
Qed.


